(** * qibo: the style-qGAN parameter mapper, its training loop, and the
      IcarusQ waveform download

    Shallow embedding of
    - [src/qibo/models/qgan.py]  (class [qGAN]) and
    - [src/qibo/hardware/qpu.py] (class [IcarusQ]),
    followed by the properties the specification states about them.

    Python floats are kept abstract (class [Float]): every statement below
    holds for any implementation of the arithmetic, IEEE doubles included.
    Calls into numpy, tensorflow and the circuit simulator are the fields of
    the class [Framework]; the file system is a finite map from paths to
    contents. *)

From Stdlib Require Import QArith Ascii.
From stdpp Require Import base option list strings gmap pretty.

Set Default Proof Using "Type".
Local Open Scope nat_scope.

(** ** Exceptions and the error monad *)

Inductive exn : Type :=
| ZeroDivisionError
| ParamsIndexError (index : nat)
| LatentIndexError (noise : nat)
| SampleIndexError (i : nat)
| ListIndexError (i : nat)
| UnboundLocalError (name : string)
| BroadcastError (got want : nat)
| ZeroDimIndexError.

Inductive result (A : Type) : Type :=
| Ok (a : A)
| Raise (e : exn).
Arguments Ok {A} a.
Arguments Raise {A} e.

Definition rbind {A B} (r : result A) (k : A -> result B) : result B :=
  match r with
  | Ok a => k a
  | Raise e => Raise e
  end.

Notation "'let*' x ':=' r 'in' k" := (rbind r (fun x => k))
  (at level 10, x pattern, r at level 100, k at level 200).

(** [l[i]] on a Python sequence with a non-negative index. *)
Definition item {A} (e : exn) (l : list A) (i : nat) : result A :=
  match l !! i with
  | Some a => Ok a
  | None => Raise e
  end.

Fixpoint traverse {A B} (f : A -> result B) (l : list A) : result (list B) :=
  match l with
  | [] => Ok []
  | a :: l' => let* b := f a in let* bs := traverse f l' in Ok (b :: bs)
  end.

(** ** Floats *)

Class Float (F : Type) : Type := {
  fadd : F -> F -> F;
  fmul : F -> F -> F;
  fdiv : F -> F -> F;
  flit : Q -> F            (* the value of a numeric literal *)
}.

(** ** [qGAN.set_params]

    The function keeps four locals: the list [p] of angles emitted so far,
    the running [index] into [params], the running [noise] row of [x_input],
    and [i], which enters as the sample column and is rebound by the loop
    [for i in range(0, self.nqubits-1)]. *)

Record mapper (A : Type) : Type := Mapper {
  m_p : list A;
  m_index : nat;
  m_noise : nat;
  m_i : nat
}.
Arguments Mapper {A}.
Arguments m_p {A}.
Arguments m_index {A}.
Arguments m_noise {A}.
Arguments m_i {A}.

Definition stmt (A : Type) : Type := mapper A -> result (mapper A).

Definition seq_stmt {A} (c1 c2 : stmt A) : stmt A :=
  fun s => let* s1 := c1 s in c2 s1.
Declare Scope stmt_scope.
Delimit Scope stmt_scope with stmt.
Bind Scope stmt_scope with stmt.
Notation "c1 ;; c2" := (seq_stmt c1 c2)
  (at level 100, c2 at level 200, right associativity) : stmt_scope.
Local Open Scope stmt_scope.

Definition skip {A} : stmt A := fun s => Ok s.

(** [for x in l: body x] *)
Fixpoint for_each {A} (l : list nat) (body : nat -> stmt A) : stmt A :=
  match l with
  | [] => skip
  | x :: l' => body x ;; for_each l' body
  end.

(** [for x in range(start, start + len)] *)
Definition for_range {A} (start len : nat) (body : nat -> stmt A) : stmt A :=
  for_each (seq start len) body.

Section SetParams.
Context {A : Type}.
(** [angle index noise i] is the value of the expression
    [params[index]*x_input[noise][i] + params[index+1]]. *)
Variable angle : nat -> nat -> nat -> result A.
Variables layers nqubits latent_dim : nat.

(** [p.append(params[index]*x_input[noise][i] + params[index+1])] *)
Definition emit : stmt A := fun s =>
  let* a := angle (m_index s) (m_noise s) (m_i s) in
  Ok (Mapper (m_p s ++ [a]) (m_index s) (m_noise s) (m_i s)).

(** [index+=2] *)
Definition bump_index : stmt A := fun s =>
  Ok (Mapper (m_p s) (m_index s + 2) (m_noise s) (m_i s)).

(** [noise=(noise+1)%self.latent_dim] *)
Definition next_noise : stmt A := fun s =>
  if decide (latent_dim = 0) then Raise ZeroDivisionError
  else Ok (Mapper (m_p s) (m_index s) ((m_noise s + 1) mod latent_dim) (m_i s)).

(** the loop header [for i in ...] binding [i] to its next value *)
Definition bind_i (k : nat) : stmt A := fun s =>
  Ok (Mapper (m_p s) (m_index s) (m_noise s) k).

(** lines 98-108: the body of [for q in range(self.nqubits)] *)
Definition rotation_body : stmt A :=
  emit ;; bump_index ;; next_noise ;;
  emit ;; bump_index ;;
  emit ;; bump_index ;; next_noise ;;
  emit ;; bump_index ;; next_noise.

(** lines 110-112: the body of [for i in range(0, self.nqubits-1)] *)
Definition ring_body (k : nat) : stmt A :=
  bind_i k ;; emit ;; bump_index ;; next_noise.

(** lines 97-115: the body of [for l in range(self.layers)] *)
Definition layer_body : stmt A :=
  for_range 0 nqubits (fun _ => rotation_body) ;;
  for_range 0 (nqubits - 1) ring_body ;;
  emit ;; bump_index ;; next_noise.

(** lines 117-119: the body of the trailing [for q in range(self.nqubits)] *)
Definition trailing_body : stmt A :=
  emit ;; bump_index ;; next_noise.

(** lines 93-119 *)
Definition set_params_locals (i : nat) : result (mapper A) :=
  (for_range 0 layers (fun _ => layer_body) ;;
   for_range 0 nqubits (fun _ => trailing_body))
    (Mapper [] 0 0 i).

(** the list handed to [circuit.set_parameters] on line 120 *)
Definition set_params_angles (i : nat) : result (list A) :=
  let* s := set_params_locals i in Ok (m_p s).
End SetParams.

(** One read of the mapper: the pair [params[index]], [params[index+1]] and
    the entry [x_input[noise][i]]. *)
Record read : Type := Read { r_index : nat; r_noise : nat; r_sample : nat }.

Global Instance read_eq_dec : EqDecision read.
Proof. solve_decision. Defined.

(** The mapper run on symbolic angles: each emitted angle is the read it
    performs. *)
Definition read_of (index noise i : nat) : result read := Ok (Read index noise i).

Definition set_params_reads (layers nqubits latent_dim i : nat) : result (list read) :=
  set_params_angles read_of layers nqubits latent_dim i.

Definition set_params_reads_locals (layers nqubits latent_dim i : nat)
  : result (mapper read) :=
  set_params_locals read_of layers nqubits latent_dim i.

Section Angle.
Context {F : Type} `{Float F}.
Variable params : list F.
Variable x_input : list (list F).

(** [params[index]*x_input[noise][i] + params[index+1]], operands
    evaluated left to right. *)
Definition angle_of (index noise i : nat) : result F :=
  let* scale := item (ParamsIndexError index) params index in
  let* row := item (LatentIndexError noise) x_input noise in
  let* x := item (SampleIndexError i) row i in
  let* bias := item (ParamsIndexError (index + 1)) params (index + 1) in
  Ok (fadd (fmul scale x) bias).

Definition angle_of_read (r : read) : result F :=
  angle_of (r_index r) (r_noise r) (r_sample r).
End Angle.

(** [set_params(circuit, params, x_input, i)] up to the call of
    [circuit.set_parameters]: the angle list [p]. *)
Definition set_params {F} `{Float F} (layers nqubits latent_dim : nat)
    (params : list F) (x_input : list (list F)) (i : nat) : result (list F) :=
  set_params_angles (angle_of params x_input) layers nqubits latent_dim i.

Definition set_params_final_index {F} `{Float F} (layers nqubits latent_dim : nat)
    (params : list F) (x_input : list (list F)) (i : nat) : result nat :=
  let* s := set_params_locals (angle_of params x_input) layers nqubits latent_dim i in
  Ok (m_index s).

(** The length [train] gives the parameter vector (line 179). *)
Definition params_length (layers nqubits : nat) : nat :=
  10 * layers * nqubits + 2 * nqubits.


(** ** Arrays *)

(** A two-dimensional numpy array: its [shape] and its rows. *)
Record array2 (F : Type) : Type := Array2 {
  shape0 : nat;
  shape1 : nat;
  rows : list (list F)
}.
Arguments Array2 {F}.
Arguments shape0 {F}.
Arguments shape1 {F}.
Arguments rows {F}.

Definition array2_wf {F} (a : array2 F) : Prop :=
  length (rows a) = shape0 a /\ Forall (fun r => length r = shape1 a) (rows a).

(** [flat.reshape(r, c)] on a flat array of [r*c] entries *)
Definition reshape {F} (r c : nat) (flat : list F) : list (list F) :=
  map (fun k => take c (drop (k * c) flat)) (seq 0 r).

(** [np.transpose(m)] of a matrix with [c] columns; [tf.stack(m, axis=1)]
    of [m] holding lists of length [c] *)
Definition transpose {F} (c : nat) (m : list (list F)) : list (list F) :=
  map (fun j => omap (fun row : list F => row !! j) m) (seq 0 c).

Section Labels.
Context {F : Type} `{Float F}.
(** [np.zeros((samples, 1))], [np.ones((samples, 1))] *)
Definition zeros (samples : nat) : list (list F) := repeat [flit 0] samples.
Definition ones (samples : nat) : list (list F) := repeat [flit 1] samples.
End Labels.

(** ** The circuit template built by [qGAN.execute] (lines 250-261) *)

Inductive gate : Type :=
| RY (q : Z) (theta : Q)
| RZ (q : Z) (theta : Q)
| CRY (control target : Z) (theta : Q).

Record circuit_template : Type := Circuit {
  c_nqubits : nat;
  c_queue : list gate
}.

(** [circuit.add(g)] *)
Definition circuit_add (g : gate) (c : circuit_template) : circuit_template :=
  Circuit (c_nqubits c) (c_queue c ++ [g]).

Definition circuit_add_all (gs : list gate) (c : circuit_template) : circuit_template :=
  foldl (fun c g => circuit_add g c) c gs.

Definition rotation_gates (q : nat) : list gate :=
  [RY (Z.of_nat q) 0; RZ (Z.of_nat q) 0; RY (Z.of_nat q) 0; RZ (Z.of_nat q) 0].

Definition layer_gates (nqubits : nat) : list gate :=
  flat_map rotation_gates (seq 0 nqubits)
  ++ map (fun i => CRY (Z.of_nat i) (Z.of_nat i + 1) 0) (seq 0 (nqubits - 1))
  ++ [CRY (Z.of_nat nqubits - 1) 0 0].

Definition generator_gates (layers nqubits : nat) : list gate :=
  flat_map (fun _ => layer_gates nqubits) (seq 0 layers)
  ++ map (fun q => RY (Z.of_nat q) 0) (seq 0 nqubits).

Definition generator_circuit (layers nqubits : nat) : circuit_template :=
  circuit_add_all (generator_gates layers nqubits) (Circuit nqubits []).

(** Every gate of the template carries one angle. *)
Definition angle_slots (c : circuit_template) : nat := length (c_queue c).

(** A gate acts on qubits of the register, and a controlled gate on two
    different ones. *)
Definition gate_fits (nqubits : nat) (g : gate) : bool :=
  let n := Z.of_nat nqubits in
  match g with
  | RY q _ | RZ q _ => bool_decide (0 <= q < n)%Z
  | CRY control target _ =>
      bool_decide (0 <= control < n)%Z && bool_decide (0 <= target < n)%Z
      && bool_decide (control <> target)
  end.

(** ** The external collaborators

    numpy's process-wide random generator, the Keras discriminator, the
    tensorflow loss, tape and optimizer, and the circuit simulator.  Draws
    of [n] random numbers are [n] successive draws from the generator
    state. *)

Class Framework (F : Type) : Type := {
  rng : Type;
  randn1 : rng -> F * rng;
  randint1 : nat -> rng -> nat * rng;
  uniform1 : F -> F -> rng -> F * rng;

  dmodel : Type;
  sequential_compile : nat -> F -> F -> dmodel;
  train_on_batch : dmodel -> list (list F) -> list (list F) -> (F * F) * dmodel;
  model_call : dmodel -> list (list F) -> list (list F);
  weights : Type;
  get_weights : dmodel -> weights;

  binary_crossentropy : list (list F) -> list (list F) -> list F;
  reduce_mean : list F -> F;
  optimizer : Type;
  Adadelta : F -> optimizer;
  tape_gradient : F -> list F -> list F;
  apply_gradients : optimizer -> list F -> list F -> optimizer * list F;

  matrix : Type;
  identity : matrix;
  pauli_z : matrix;
  kron : matrix -> matrix -> matrix;
  observable : Type;
  Hamiltonian : nat -> matrix -> observable;

  circuit : Type;
  make_circuit : circuit_template -> circuit;
  set_parameters : circuit -> list F -> circuit;
  qstate : Type;
  circuit_execute : circuit -> qstate;
  expectation : observable -> qstate -> F;

  format_float : F -> string
}.

Section QGAN.
Context {F : Type} `{Float F} `{Framework F}.

(** *** The objects the training loop shares with its callees *)

Inductive file : Type :=
| TextFile (content : list (list F))
| WeightsFile (content : weights).

Inductive event : Type :=
| TrainOnBatch (X y : list (list F))
| Discriminate (X : list (list F))
| Crossentropy (y_true y_pred : list (list F))
| Savetxt (fname : string) (X : list (list F))
| SaveWeights (fname : string).

Record world : Type := World {
  w_rng : rng;
  w_model : dmodel;
  w_circuit : circuit;
  w_files : gmap string file;
  w_calls : list event
}.

Definition io (X : Type) : Type := world -> result (X * world).

Definition io_ret {X} (x : X) : io X := fun w => Ok (x, w).
Definition io_bind {X Y} (c : io X) (k : X -> io Y) : io Y :=
  fun w => let* xw := c w in k (fst xw) (snd xw).
Definition io_lift {X} (r : result X) : io X :=
  fun w => let* x := r in Ok (x, w).
Definition call (e : event) : io unit := fun w =>
  Ok (tt, World (w_rng w) (w_model w) (w_circuit w) (w_files w) (w_calls w ++ [e])).

Notation "'let!' x ':=' c 'in' k" := (io_bind c (fun x => k))
  (at level 10, x pattern, c at level 100, k at level 200).

Fixpoint io_for {X} (l : list nat) (body : nat -> io X) : io (list X) :=
  match l with
  | [] => io_ret []
  | x :: l' => let! y := body x in let! ys := io_for l' body in io_ret (y :: ys)
  end.

(** [n] successive draws from the generator state *)
Fixpoint draws {X} (draw : rng -> X * rng) (n : nat) (g : rng) : list X * rng :=
  match n with
  | 0 => ([], g)
  | S n' => let r := draw g in
            let rs := draws draw n' (snd r) in (fst r :: fst rs, snd rs)
  end.

Definition with_rng {X} (f : rng -> X * rng) : io X := fun w =>
  let r := f (w_rng w) in
  Ok (fst r, World (snd r) (w_model w) (w_circuit w) (w_files w) (w_calls w)).

(** *** The model object *)

Record qGAN : Type := QGAN {
  reference : array2 F;
  nqubits : nat;
  layers : nat;
  latent_dim : nat;
  training_samples : nat;
  batch_samples : nat;
  n_epochs : nat;
  lr : F
}.

(** [qGAN.__init__] (lines 59-68) *)
Definition qGAN_init (reference : array2 F) (layers latent_dim : nat)
    (batch_samples n_epochs : nat) (lr : F) : qGAN :=
  QGAN reference (shape1 reference) layers latent_dim (shape0 reference)
       batch_samples n_epochs lr.

(** the constructor with its default arguments *)
Definition qGAN_default (reference : array2 F) (layers latent_dim : nat) : qGAN :=
  qGAN_init reference layers latent_dim 128 (20 * 1000) (flit 0.5).

Variable self : qGAN.

(** [qGAN.define_discriminator] (lines 70-90), with its default
    [alpha=0.2, dropout=0.2] *)
Definition define_discriminator : dmodel :=
  sequential_compile (nqubits self) (flit 0.2) (flit 0.2).

(** [qGAN.set_params] (lines 92-120) *)
Definition set_params_on (params : list F) (x_input : list (list F)) (i : nat)
  : io unit := fun w =>
  let* p := set_params (layers self) (nqubits self) (latent_dim self) params x_input i in
  Ok (tt, World (w_rng w) (w_model w) (set_parameters (w_circuit w) p)
                (w_files w) (w_calls w)).

(** [qGAN.generate_latent_points] (lines 122-128) *)
Definition generate_latent_points (samples : nat) : io (list (list F)) :=
  let! x_input := with_rng (draws randn1 (latent_dim self * samples)) in
  io_ret (reshape samples (latent_dim self) x_input).

(** [qGAN.generate_fake_samples] (lines 130-149) *)
Definition generate_fake_samples (params : list F) (samples : nat)
    (hamiltonians_list : list observable) : io (list (list F) * list (list F)) :=
  let! x_input := generate_latent_points samples in
  let x_input := transpose (latent_dim self) x_input in
  let! X := io_for (seq 0 samples) (fun i =>
    let! _ := set_params_on params x_input i in
    fun w =>
      let circuit_execute := circuit_execute (w_circuit w) in
      let* row := traverse (fun ii =>
        let* h := item (ListIndexError ii) hamiltonians_list ii in
        Ok (expectation h circuit_execute)) (seq 0 (nqubits self)) in
      Ok (row, w)) in
  (* the lists [X[ii]], one per qubit *)
  let X := transpose (nqubits self) X in
  (* [tf.stack(X, axis=1)] *)
  let X := transpose samples X in
  io_ret (X, zeros samples).

(** [qGAN.define_cost_gan] (lines 151-161) *)
Definition define_cost_gan (params : list F) (samples : nat)
    (hamiltonians_list : list observable) : io F :=
  let! (x_fake, y_fake) := generate_fake_samples params samples hamiltonians_list in
  let y_fake := ones samples in
  let! _ := call (Discriminate x_fake) in
  fun w =>
    let disc_output := model_call (w_model w) x_fake in
    (let! _ := call (Crossentropy y_fake disc_output) in
     let loss := binary_crossentropy y_fake disc_output in
     let loss := reduce_mean loss in
     io_ret loss) w.

(** [generate_real_samples], local to [train] (lines 166-173) *)
Definition generate_real_samples (samples : nat) (distribution : array2 F)
    (real_samples : nat) : io (list (list F) * list (list F)) :=
  let! idx := with_rng (draws (randint1 real_samples) samples) in
  let! X := io_lift (traverse (fun k => item (ListIndexError k) (rows distribution) k) idx) in
  let y := ones samples in
  io_ret (X, y).

(** [d_model.train_on_batch(X, y)] on the shared discriminator *)
Definition do_train_on_batch (X y : list (list F)) : io (F * F) :=
  let! _ := call (TrainOnBatch X y) in
  fun w =>
    let r := train_on_batch (w_model w) X y in
    Ok (fst r, World (w_rng w) (snd r) (w_circuit w) (w_files w) (w_calls w)).

(** [np.savetxt(fname, X, newline='')]: the file is created or replaced *)
Definition savetxt (fname : string) (X : list (list F)) : io unit :=
  let! _ := call (Savetxt fname X) in
  fun w => Ok (tt, World (w_rng w) (w_model w) (w_circuit w)
                         (<[fname := TextFile X]> (w_files w)) (w_calls w)).

(** [d_model.save_weights(fname)] *)
Definition save_weights (fname : string) : io unit :=
  let! _ := call (SaveWeights fname) in
  fun w => Ok (tt, World (w_rng w) (w_model w) (w_circuit w)
                         (<[fname := WeightsFile (get_weights (w_model w))]> (w_files w))
                         (w_calls w)).

(** the common tail of the four file names (lines 199-203) *)
Definition hyperparameters : string :=
  pretty (nqubits self) +:+ "_" +:+ pretty (latent_dim self) +:+ "_"
  +:+ pretty (layers self) +:+ "_" +:+ pretty (training_samples self) +:+ "_"
  +:+ pretty (batch_samples self) +:+ "_" +:+ format_float (lr self).

Definition params_file : string := "PARAMS_3Dgaussian_" +:+ hyperparameters.
Definition dloss_file : string := "dloss_3Dgaussian_" +:+ hyperparameters.
Definition gloss_file : string := "gloss_3Dgaussian_" +:+ hyperparameters.
Definition weights_file : string :=
  "discriminator_3Dgaussian_" +:+ hyperparameters +:+ ".h5".

(** the locals of [train] that change from epoch to epoch *)
Record train_locals : Type := TrainLocals {
  d_loss : list F;
  g_loss : list F;
  initial_params : list F;
  t_optimizer : optimizer
}.

(** [int(self.batch_samples / 2)] (line 178).  The quotient is a float; for
    a batch size below 2^53 it is exact and its truncation is the integer
    quotient. *)
Definition half_samples : nat := batch_samples self / 2.

(** one pass of the loop [for i in range(self.n_epochs)] (lines 185-203) *)
Definition epoch (hamiltonians_list : list observable) (t : train_locals)
  : io train_locals :=
  let s := reference self in
  let! (x_real, y_real) := generate_real_samples half_samples s (training_samples self) in
  let! (x_fake, y_fake) := generate_fake_samples (initial_params t) half_samples hamiltonians_list in
  let! r_real := do_train_on_batch x_real y_real in
  let d_loss_real := fst r_real in
  let! r_fake := do_train_on_batch x_fake y_fake in
  let d_loss_fake := fst r_fake in
  let d_loss := d_loss t ++ [fdiv (fadd d_loss_real d_loss_fake) (flit 2)] in
  let! loss := define_cost_gan (initial_params t) (batch_samples self) hamiltonians_list in
  let grads := tape_gradient loss (initial_params t) in
  let applied := apply_gradients (t_optimizer t) grads (initial_params t) in
  let optimizer := fst applied in
  let initial_params := snd applied in
  let g_loss := g_loss t ++ [loss] in
  let! _ := savetxt params_file [initial_params] in
  let! _ := savetxt dloss_file [d_loss] in
  let! _ := savetxt gloss_file [g_loss] in
  let! _ := save_weights weights_file in
  io_ret (TrainLocals d_loss g_loss initial_params optimizer).

Fixpoint epochs (n : nat) (hamiltonians_list : list observable) (t : train_locals)
  : io train_locals :=
  match n with
  | 0 => io_ret t
  | S n' => let! t1 := epoch hamiltonians_list t in epochs n' hamiltonians_list t1
  end.

(** the locals of [train] on entry to the loop (lines 175-180) *)
Definition train_setup : io train_locals :=
  let! initial_params :=
    with_rng (draws (uniform1 (flit (-0.15)) (flit 0.15))
                    (10 * layers self * nqubits self + 2 * nqubits self)) in
  let optimizer := Adadelta (lr self) in
  io_ret (TrainLocals [] [] initial_params optimizer).

(** [qGAN.train] (lines 163-203); [d_model] and [circuit] are the shared
    objects of the world *)
Definition train (hamiltonians_list : list observable) : io train_locals :=
  let! t := train_setup in
  epochs (n_epochs self) hamiltonians_list t.

(** [hamiltonian], local to [execute] (lines 228-243); [ham] is unbound
    until the second loop assigns it *)
Definition hamiltonian (nqubits position : nat) : result observable :=
  let kron_list :=
    map (fun i => if decide (i = position) then pauli_z else identity) (seq 0 nqubits) in
  let* ham :=
    foldl (fun (ham : result (option matrix)) i =>
             let* ham := ham in
             let* hi := item (ListIndexError (i + 1)) kron_list (i + 1) in
             if decide (i = 0) then
               let* k0 := item (ListIndexError i) kron_list i in
               Ok (Some (kron hi k0))
             else
               match ham with
               | Some h => Ok (Some (kron hi h))
               | None => Raise (UnboundLocalError "ham")
               end)
          (Ok None) (seq 0 (nqubits - 1)) in
  match ham with
  | Some h => Ok (Hamiltonian nqubits h)
  | None => Raise (UnboundLocalError "ham")
  end.

(** the state of the process when [execute] is called: numpy's generator
    and the files on disk *)
Record process : Type := Process {
  ps_rng : rng;
  ps_files : gmap string file
}.

(** [qGAN.execute] (lines 207-264) *)
Definition execute (ps : process) : result (train_locals * world) :=
  let discriminator := define_discriminator in
  let* hamiltonians_list := traverse (hamiltonian (nqubits self)) (seq 0 (nqubits self)) in
  let circuit := make_circuit (generator_circuit (layers self) (nqubits self)) in
  train hamiltonians_list (World (ps_rng ps) discriminator circuit (ps_files ps) []).

(** [qGAN.__call__] *)
Definition qGAN_call (ps : process) : result (train_locals * world) := execute ps.

(** *** Configurations on which training runs *)

(** [train] run for its first [k] epochs only *)
Definition train_upto (k : nat) (hamiltonians_list : list observable)
  : io train_locals :=
  let! t := train_setup in
  epochs k hamiltonians_list t.

(** At least one qubit and one latent dimension; half a batch holds the
    sample columns the ring loop of [set_params] selects; one observable
    per qubit; a non-empty reference array. *)
Definition well_configured (hamiltonians_list : list observable) : Prop :=
  1 <= nqubits self /\ 1 <= latent_dim self
  /\ nqubits self <= half_samples + 1
  /\ nqubits self <= length hamiltonians_list
  /\ 1 <= training_samples self
  /\ length (rows (reference self)) = training_samples self.

(** the four files of a checkpoint, written over [files] in the order of
    lines 199-203 *)
Definition checkpoint (t : train_locals) (d_model : dmodel)
    (files : gmap string file) : gmap string file :=
  <[weights_file := WeightsFile (get_weights d_model)]>
    (<[gloss_file := TextFile [g_loss t]]>
      (<[dloss_file := TextFile [d_loss t]]>
        (<[params_file := TextFile [initial_params t]]> files))).

(** What one epoch leaves behind: the locals and the world after an epoch
    that started from [t] and [w], drew the real batch [x_real], generated
    the fake batches [x_fake] (half a batch) and [x_gen] (a full batch), and
    left the generator state [g] and the circuit [c]. *)
Definition epoch_effect (t : train_locals) (w : world)
    (x_real x_fake x_gen : list (list F)) (g : rng) (c : circuit)
  : train_locals * world :=
  let r_real := train_on_batch (w_model w) x_real (ones half_samples) in
  let r_fake := train_on_batch (snd r_real) x_fake (zeros half_samples) in
  let d_model := snd r_fake in
  let disc_output := model_call d_model x_gen in
  let loss :=
    reduce_mean (binary_crossentropy (ones (batch_samples self)) disc_output) in
  let applied :=
    apply_gradients (t_optimizer t) (tape_gradient loss (initial_params t))
                    (initial_params t) in
  let t' :=
    TrainLocals (d_loss t ++ [fdiv (fadd (fst (fst r_real)) (fst (fst r_fake))) (flit 2)])
                (g_loss t ++ [loss]) (snd applied) (fst applied) in
  (t', World g d_model c (checkpoint t' d_model (w_files w))
         (w_calls w ++ [TrainOnBatch x_real (ones half_samples);
                        TrainOnBatch x_fake (zeros half_samples);
                        Discriminate x_gen;
                        Crossentropy (ones (batch_samples self)) disc_output;
                        Savetxt params_file [initial_params t'];
                        Savetxt dloss_file [d_loss t'];
                        Savetxt gloss_file [g_loss t'];
                        SaveWeights weights_file])).

(** the four file names in the order they are written *)
Definition checkpoint_files : list string :=
  [params_file; dloss_file; gloss_file; weights_file].

(** the file names written by a list of calls, in order *)
Definition written (calls : list event) : list string :=
  omap (fun e => match e with
                 | Savetxt fname _ | SaveWeights fname => Some fname
                 | _ => None
                 end) calls.
End QGAN.

(** The contracts of numpy and tensorflow the statements rely on:
    [randint(high)] draws below [high], and an optimizer step keeps the
    shape of the variable it updates. *)
Class FrameworkLaws (F : Type) `{Framework F} : Prop := {
  randint1_range : forall high g, 0 < high -> fst (randint1 high g) < high;
  apply_gradients_shape : forall o grads params,
    length (snd (apply_gradients o grads params)) = length params
}.

(** ** The observable built by [hamiltonian], in closed form *)

Section Observables.
Context {F : Type} `{Framework F}.

(** entry [i] of the list [kron] of [hamiltonian]: Z at [position], the
    identity elsewhere *)
Definition kron_factor (position i : nat) : matrix :=
  if decide (i = position) then pauli_z else identity.

(** [kron(k_m, kron(..., kron(k_1, k_0)))] for [rest = [k_1; ...; k_m]] *)
Definition kron_chain (k0 : matrix) (rest : list matrix) : matrix :=
  foldl (fun ham k => kron k ham) k0 rest.
End Observables.

(** ** The labels seen by the discriminator and by the loss *)

Section Traces.
Context {F : Type} `{Float F} `{Framework F}.

(** the label arrays handed to [train_on_batch], and those handed to the
    loss function, in the order of the calls *)
Definition trained_labels (calls : list (@event F)) : list (list (list F)) :=
  omap (fun e => match e with TrainOnBatch _ y => Some y | _ => None end) calls.
Definition loss_labels (calls : list (@event F)) : list (list (list F)) :=
  omap (fun e => match e with Crossentropy y _ => Some y | _ => None end) calls.
End Traces.

(** ** [IcarusQ.download] (qpu.py, lines 84-99) *)

(** The secure-shell session and numpy's text reader; [genfromtxt] gives the
    entries parsed from a one-line file, in order (a list of one entry
    stands for the 0-dimensional array numpy returns for a single value). *)
Class Instrument (F : Type) : Type := {
  sftp : Type;
  buffer : Type;
  BytesIO : buffer;
  getfo : sftp -> buffer -> buffer * sftp;
  genfromtxt : buffer -> list F
}.

Module IcarusQ.
(** hardware static parameters (lines 30-33) *)
Definition num_qubits : nat := 2.
Definition nchannels : nat := 4.
Definition sample_size : nat := 32 * 1000.

Section Download.
Context {F : Type} `{Float F} `{Instrument F}.

(** [a[:-1]] *)
Definition drop_last (a : list F) : list F := take (length a - 1) a.

(** [np.genfromtxt(dump, delimiter=',')[:-1]] on the parsed entries: a file
    with a single entry is parsed to a 0-dimensional array, which cannot be
    sliced *)
Definition slice_last (a : list F) : result (list F) :=
  match a with
  | [_] => Raise ZeroDimIndexError
  | _ => Ok (drop_last a)
  end.

(** [waveform[i] = a]: numpy broadcasts a one-element [a] over the row
    and refuses any length other than the row's *)
Definition assign_row (waveform : list (list F)) (i : nat) (a : list F)
  : result (list (list F)) :=
  if decide (length a = sample_size) then Ok (<[i := a]> waveform)
  else match a with
       | [x] => Ok (<[i := repeat x sample_size]> waveform)
       | _ => Raise (BroadcastError (length a) sample_size)
       end.

(** the body of [for i in range(self.nchannels)] *)
Definition download_channel (st : list (list F) * buffer * sftp) (i : nat)
  : result (list (list F) * buffer * sftp) :=
  let '(waveform, dump, conn) := st in
  let '(dump, conn) := getfo conn dump in
  let* a := slice_last (genfromtxt dump) in
  let* waveform := assign_row waveform i a in
  Ok (waveform, dump, conn).

Definition download_loop (channels : list nat) (st : list (list F) * buffer * sftp)
  : result (list (list F) * buffer * sftp) :=
  foldl (fun st i => let* st := st in download_channel st i) (Ok st) channels.

Definition download (conn : sftp) : result (list (list F)) :=
  let waveform := repeat (repeat (flit 0) sample_size) nchannels in
  let dump := BytesIO in
  let* st := download_loop (seq 0 nchannels) (waveform, dump, conn) in
  Ok (fst (fst st)).

(** [waveform.shape] *)
Definition has_shape (r c : nat) (a : list (list F)) : Prop :=
  length a = r /\ Forall (fun row => length row = c) a.

(** the buffer and the session after [k] passes of the loop *)
Fixpoint fetched (k : nat) (conn : sftp) : buffer * sftp :=
  match k with
  | 0 => (BytesIO, conn)
  | S k' => let st := fetched k' conn in getfo (snd st) (fst st)
  end.

(** what [np.genfromtxt] parses in pass [i] *)
Definition channel_text (i : nat) (conn : sftp) : list F :=
  genfromtxt (fst (fetched (S i) conn)).

(** what a row assignment stores: the array itself, or its single entry
    over the whole row *)
Inductive stored a : list F -> Prop :=
| stored_row : length a = sample_size -> stored a a
| stored_broadcast x : a = [x] -> stored a (repeat x sample_size).
End Download.

(** *** [IcarusQ.upload] (qpu.py, lines 76-83), for rows of integer samples *)

(** what [np.savetxt(dump, row, fmt='%d', newline=',')] writes for a row of
    integer samples: each entry in decimal, followed by a comma *)
Definition savetxt_text (row : list Z) : list ascii :=
  flat_map (fun x => String.list_ascii_of_string (pretty x) ++ [","%char]) row.

(** [dump.seek(0)] followed by writing [data]: the bytes are written over
    the start of the buffer, and what lies beyond them stays *)
Definition write_at_start (data dump : list ascii) : list ascii :=
  data ++ drop (length data) dump.

(** the loop of [upload]; [sent] collects what [sftp.putfo] is handed, pass
    by pass, which after [dump.seek(0)] is the whole buffer *)
Fixpoint upload_loop (channels : list nat) (waveform : list (list Z))
    (dump : list ascii) (sent : list (list ascii))
  : list (list ascii) * result (list ascii) :=
  match channels with
  | [] => (sent, Ok dump)
  | i :: channels' =>
      match waveform !! i with
      | None => (sent, Raise (ListIndexError i))
      | Some row =>
          let dump := write_at_start (savetxt_text row) dump in
          upload_loop channels' waveform dump (sent ++ [dump])
      end
  end.

(** the payloads sent, and how the call ends *)
Definition upload (waveform : list (list Z)) : list (list ascii) * result unit :=
  let r := upload_loop (seq 0 nchannels) waveform [] [] in
  (fst r, let* _ := snd r in Ok tt).
End IcarusQ.

(** ** Closed forms used in the statements below *)

(** [counters a adv]: the noise counters seen by consecutive angles when the
    first one sees [a] and [adv] tells, angle by angle, whether the counter
    advances after it. *)
Fixpoint counters (a : nat) (adv : list bool) : list nat :=
  match adv with
  | [] => []
  | b :: adv' => a :: counters (if b then S a else a) adv'
  end.

Definition advances (adv : list bool) : nat := length (List.filter id adv).

(** The noise rows read by a mapper whose four angles per qubit advance the
    counter according to [adv], whose [nqubits] ring angles per layer
    advance it each, and which ends with one angle per qubit. *)
Definition noise_schedule (adv : list bool) (layers nqubits latent_dim : nat)
  : list nat :=
  let per_qubit := advances adv in
  let per_layer := per_qubit * nqubits + nqubits in
  flat_map (fun l =>
    flat_map (fun q => map (fun c => c mod latent_dim)
                           (counters (per_layer * l + per_qubit * q) adv))
             (seq 0 nqubits)
    ++ map (fun j => (per_layer * l + per_qubit * nqubits + j) mod latent_dim)
           (seq 0 nqubits))
    (seq 0 layers)
  ++ map (fun q => (per_layer * layers + q) mod latent_dim) (seq 0 nqubits).

(** The schedule in the words of the specification: a new noise index after
    the 1st, 2nd and 3rd angle of a qubit, not after the 4th. *)
Definition spec_noise_schedule : nat -> nat -> nat -> list nat :=
  noise_schedule [true; true; true; false].

(** The schedule of lines 98-108: a new noise index after the 1st, 3rd and
    4th angle of a qubit, not after the 2nd. *)
Definition code_noise_schedule : nat -> nat -> nat -> list nat :=
  noise_schedule [true; false; true; true].

(** The value of [i] once the loop [for i in range(0, nqubits-1)] has run. *)
Definition ring_sample (nqubits i : nat) : nat :=
  if decide (nqubits <= 1) then i else nqubits - 2.

Definition rotation_reads (d index a i : nat) : list read :=
  [Read index (a mod d) i; Read (index + 2) ((a + 1) mod d) i;
   Read (index + 4) ((a + 1) mod d) i; Read (index + 6) ((a + 2) mod d) i].

Definition layer_reads (n d index a i : nat) : list read :=
  flat_map (fun q => rotation_reads d (index + 8 * q) (a + 3 * q) i) (seq 0 n)
  ++ map (fun j => Read (index + 8 * n + 2 * j) ((a + 3 * n + j) mod d) j) (seq 0 (n - 1))
  ++ [Read (index + 8 * n + 2 * (n - 1)) ((a + 3 * n + (n - 1)) mod d) (ring_sample n i)].

(** The sample column in use when layer [l] starts. *)
Definition layer_sample (n i l : nat) : nat :=
  match l with 0 => i | S _ => ring_sample n i end.

Definition expected_reads (layers n d i : nat) : list read :=
  flat_map (fun l => layer_reads n d (10 * n * l) (4 * n * l) (layer_sample n i l))
           (seq 0 layers)
  ++ map (fun q => Read (10 * n * layers + 2 * q) ((4 * n * layers + q) mod d)
                        (layer_sample n i layers))
         (seq 0 n).

(** The parameter indices [index], [index+2], ... of [len] consecutive
    angles. *)
Definition evens (index len : nat) : list nat :=
  map (fun k => index + 2 * k) (seq 0 len).

(** [sim f st rc]: the run on symbolic angles has reached [st] while the run
    computing angles with [f] has reached [rc]; a run that has raised stays
    where it raised. *)
Definition sim {A} (f : read -> result A) (st : mapper read) (rc : result (mapper A))
  : Prop :=
  match rc with
  | Ok sc => m_index sc = m_index st /\ m_noise sc = m_noise st /\ m_i sc = m_i st
             /\ traverse f (m_p st) = Ok (m_p sc)
  | Raise e => traverse f (m_p st) = Raise e
  end.

Definition lockstep {A} (f : read -> result A) (ct : stmt read) (cc : stmt A) : Prop :=
  forall st rc, sim f st rc ->
    exists st', ct st = Ok st' /\ (exists ext, m_p st' = m_p st ++ ext)
                /\ sim f st' (rbind rc cc).

(** ** Instances for concrete runs *)

Global Instance Q_float : Float Q :=
  {| fadd := Qplus; fmul := Qmult; fdiv := Qdiv; flit := fun q => q |}.

(** Scale 1 and bias 0 for each of [angles] angles: every angle is the
    latent entry it reads. *)
Definition identity_params (angles : nat) : list Q :=
  flat_map (fun _ => [1%Q; 0%Q]) (seq 0 angles).

(** Two latent matrices of shape (latent_dim, samples) = (1, 2) that agree on
    sample 1 and differ on sample 0. *)
Definition latent_a : list (list Q) := [[10%Q; 1%Q]].
Definition latent_b : list (list Q) := [[20%Q; 1%Q]].

(** The latent vector of sample [i]: column [i] of [x_input]. *)
Definition column {F} (x_input : list (list F)) (i : nat) : list (option F) :=
  map (fun row : list F => row !! i) x_input.

(** A deterministic framework for concrete runs of the training loop: the
    generator state is a counter, the discriminator counts its training
    steps, and an optimizer step leaves the variable as it is. *)
Global Instance counting_framework : Framework Q := {|
  rng := nat;
  randn1 g := (inject_Z (Z.of_nat g), S g);
  randint1 high g := (g mod high, S g);
  uniform1 low high g := (low, S g);
  dmodel := nat;
  sequential_compile _ _ _ := 0;
  train_on_batch m X y := ((inject_Z (Z.of_nat m), 1%Q), S m);
  model_call m X := map (fun _ => [(1 # 2)%Q]) X;
  weights := nat;
  get_weights m := m;
  binary_crossentropy y_true y_pred := map (fun _ => 1%Q) y_true;
  reduce_mean l := 1%Q;
  optimizer := Q;
  Adadelta lr := lr;
  tape_gradient loss params := map (fun _ => loss) params;
  apply_gradients o grads params := (o, params);
  matrix := nat;
  identity := 0;
  pauli_z := 1;
  kron a b := a + b;
  observable := nat;
  Hamiltonian n m := m;
  circuit := list Q;
  make_circuit _ := [];
  set_parameters _ p := p;
  qstate := list Q;
  circuit_execute c := c;
  expectation h s := 0%Q;
  format_float _ := "0.5"
|}.

(** A model of two qubits on a reference array of three rows, with a batch
    of four samples, and the world [execute] starts [train] in. *)
Definition small_reference : array2 Q :=
  Array2 3 2 [[1; 2]; [3; 4]; [5; 6]]%Q.
Definition small_qgan : qGAN := qGAN_init small_reference 1 1 4 2 (1 # 2)%Q.
Definition small_hams : list observable := [1; 1].
Definition small_world : world :=
  World 0 (define_discriminator small_qgan)
        (make_circuit (generator_circuit 1 2)) ∅ [].
Definition small_process : process := Process 0 ∅.

(** the locals of [train] on entry to an epoch of the small model *)
Definition small_locals : train_locals :=
  TrainLocals [] [] (identity_params 12) (Adadelta (1 # 2)%Q).

(** An instrument whose every channel file holds [sample_size + 1] entries. *)
Global Instance steady_instrument : Instrument Q := {|
  sftp := nat;
  buffer := nat;
  BytesIO := 0;
  getfo conn dump := (S dump, S conn);
  genfromtxt dump := repeat (inject_Z (Z.of_nat dump)) (IcarusQ.sample_size + 1)
|}.

(** Instruments whose first channel file is well-formed and whose later
    ones hold three entries, or a single one. *)
Definition patchy_instrument : Instrument Q := {|
  sftp := nat;
  buffer := nat;
  BytesIO := 0;
  getfo conn dump := (S dump, S conn);
  genfromtxt dump :=
    if decide (dump = 1) then repeat 0%Q (IcarusQ.sample_size + 1)
    else [1; 2; 3]%Q
|}.
Definition scalar_instrument : Instrument Q := {|
  sftp := nat;
  buffer := nat;
  BytesIO := 0;
  getfo conn dump := (S dump, S conn);
  genfromtxt dump :=
    if decide (dump = 1) then repeat 0%Q (IcarusQ.sample_size + 1)
    else [7%Q]
|}.

(** A model on a one-column reference array, one with [latent_dim = 0], one
    on a three-column reference array with a batch of two samples, one with
    [latent_dim = 0] and no epochs, a latent matrix with a third sample, and
    two waveforms. *)
Definition single_qubit_qgan : qGAN :=
  qGAN_init (Array2 2 1 [[1]; [2]]%Q) 1 1 4 2 (1 # 2)%Q.
Definition flat_qgan : qGAN := qGAN_init small_reference 1 0 4 2 (1 # 2)%Q.
Definition latent_c : list (list Q) := [[10%Q; 1%Q; 7%Q]].
Definition uneven_waveform : list (list Z) := [[1000; 2000]; [1; 2]; []; [-5]]%Z.
Definition one_row_waveform : list (list Z) := [[1; 2]]%Z.
Definition even_waveform : list (list Z) := [[1; 2]; [3; 4]; [5; 6]; [7; 8]]%Z.

(** * Properties *)

(** ** Loops of the mapper *)

Section Loops.
Context {A : Type}.
Implicit Types (s : mapper A) (body : nat -> stmt A).

Lemma for_each_app l1 l2 body s :
  for_each (l1 ++ l2) body s = (for_each l1 body ;; for_each l2 body)%stmt s.
Proof.
  revert s. induction l1 as [|x l1 IH]; intros s; simpl.
  - reflexivity.
  - unfold seq_stmt in *. destruct (body x s) as [s1|e]; simpl; [|reflexivity].
    apply IH.
Qed.

(** A loop whose state after [j] passes is [st j]. *)
Lemma for_range_states (st : nat -> mapper A) body len s0 :
  s0 = st 0 ->
  (forall j, j < len -> body j (st j) = Ok (st (S j))) ->
  for_range 0 len body s0 = Ok (st len).
Proof.
  intros ->. unfold for_range. induction len as [|len IH]; intros Hstep.
  - reflexivity.
  - rewrite seq_S, for_each_app. unfold seq_stmt.
    rewrite IH by (intros j Hj; apply Hstep; lia). simpl.
    unfold seq_stmt. rewrite Hstep by lia. reflexivity.
Qed.
End Loops.

Section Reads.
Variables n d : nat.
Hypothesis d_pos : 0 < d.

Lemma next_noise_reads p index a i :
  next_noise d (Mapper (A:=read) p index (a mod d) i) = Ok (Mapper p index ((a + 1) mod d) i).
Proof using d_pos.
  unfold next_noise. rewrite decide_False by lia. simpl.
  rewrite Nat.Div0.add_mod_idemp_l. reflexivity.
Qed.

Lemma rotation_body_reads p index a i :
  rotation_body read_of d (Mapper p index (a mod d) i)
  = Ok (Mapper (p ++ rotation_reads d index a i) (index + 8) ((a + 3) mod d) i).
Proof using d_pos.
  unfold rotation_body, seq_stmt, emit, bump_index, read_of; simpl.
  rewrite !next_noise_reads. simpl. rewrite !next_noise_reads; simpl.
  rewrite !next_noise_reads; simpl.
  unfold rotation_reads. rewrite <- !app_assoc. simpl.
  rewrite <- !Nat.add_assoc. reflexivity.
Qed.

Lemma slot_reads p index a i :
  (emit read_of ;; bump_index ;; next_noise d)%stmt (Mapper p index (a mod d) i)
  = Ok (Mapper (p ++ [Read index (a mod d) i]) (index + 2) ((a + 1) mod d) i).
Proof using d_pos.
  unfold seq_stmt, emit, bump_index, read_of; simpl. by rewrite next_noise_reads.
Qed.

Lemma ring_body_reads p index a i k :
  ring_body read_of d k (Mapper p index (a mod d) i)
  = Ok (Mapper (p ++ [Read index (a mod d) k]) (index + 2) ((a + 1) mod d) k).
Proof using d_pos.
  unfold ring_body. unfold seq_stmt at 1. unfold bind_i at 1. simpl.
  by rewrite slot_reads.
Qed.

Lemma flat_map_seq_S {B} (f : nat -> list B) k :
  flat_map f (seq 0 (S k)) = flat_map f (seq 0 k) ++ f k.
Proof. by rewrite seq_S, flat_map_app; simpl; rewrite app_nil_r. Qed.

Lemma map_seq_S {B} (f : nat -> B) k :
  map f (seq 0 (S k)) = map f (seq 0 k) ++ [f k].
Proof. by rewrite seq_S, map_app. Qed.

Lemma mapper_eq (p p' : list read) i i' a a' c c' :
  p = p' -> i = i' -> a = a' -> c = c' ->
  Mapper p i (a mod d) c = Mapper p' i' (a' mod d) c'.
Proof. by intros -> -> -> ->. Qed.

Lemma layer_body_reads p index a i :
  1 <= n ->
  layer_body read_of n d (Mapper p index (a mod d) i)
  = Ok (Mapper (p ++ layer_reads n d index a i) (index + 10 * n)
               ((a + 4 * n) mod d) (ring_sample n i)).
Proof using d_pos.
  intros Hn. unfold layer_body. unfold seq_stmt at 1.
  rewrite (for_range_states (fun j => Mapper
    (p ++ flat_map (fun q => rotation_reads d (index + 8 * q) (a + 3 * q) i) (seq 0 j))
    (index + 8 * j) ((a + 3 * j) mod d) i)).
  2:{ simpl. rewrite app_nil_r. apply mapper_eq; try reflexivity; lia. }
  2:{ intros j _. rewrite rotation_body_reads, flat_map_seq_S, app_assoc.
      f_equal; apply mapper_eq; try reflexivity; lia. }
  simpl. unfold seq_stmt at 1.
  set (p1 := p ++ flat_map _ _).
  rewrite (for_range_states (fun j => Mapper
    (p1 ++ map (fun j => Read (index + 8 * n + 2 * j) ((a + 3 * n + j) mod d) j) (seq 0 j))
    (index + 8 * n + 2 * j) ((a + 3 * n + j) mod d)
    (match j with 0 => i | S j' => j' end))).
  2:{ simpl. rewrite app_nil_r. apply mapper_eq; try reflexivity; lia. }
  2:{ intros j _. rewrite ring_body_reads, map_seq_S, app_assoc.
      f_equal; apply mapper_eq; try reflexivity; lia. }
  simpl. rewrite slot_reads. unfold layer_reads, p1.
  assert (Hs : match n - 1 with 0 => i | S j' => j' end = ring_sample n i).
  { unfold ring_sample. case_decide; destruct n as [|[|m]]; simpl; lia. }
  rewrite Hs, <- !app_assoc. f_equal; apply mapper_eq; try reflexivity; lia.
Qed.

Lemma set_params_reads_locals_expected layers i :
  1 <= n ->
  set_params_reads_locals layers n d i
  = Ok (Mapper (expected_reads layers n d i) (10 * n * layers + 2 * n)
               ((4 * n * layers + n) mod d) (layer_sample n i layers)).
Proof using d_pos.
  intros Hn. unfold set_params_reads_locals, set_params_locals.
  unfold seq_stmt at 1.
  rewrite (for_range_states (fun l => Mapper
    (flat_map (fun l => layer_reads n d (10 * n * l) (4 * n * l) (layer_sample n i l))
              (seq 0 l))
    (10 * n * l) ((4 * n * l) mod d) (layer_sample n i l))).
  2:{ simpl. rewrite !Nat.mul_0_r, Nat.Div0.mod_0_l. reflexivity. }
  2:{ intros l _. rewrite layer_body_reads, flat_map_seq_S by done.
      f_equal; apply mapper_eq; try reflexivity; try lia.
      unfold layer_sample, ring_sample. destruct l; [done|].
      repeat case_decide; lia. }
  simpl.
  set (p1 := flat_map _ _).
  rewrite (for_range_states (fun q => Mapper
    (p1 ++ map (fun q => Read (10 * n * layers + 2 * q) ((4 * n * layers + q) mod d)
                              (layer_sample n i layers)) (seq 0 q))
    (10 * n * layers + 2 * q) ((4 * n * layers + q) mod d) (layer_sample n i layers))).
  2:{ simpl. rewrite app_nil_r. apply mapper_eq; try reflexivity; lia. }
  2:{ intros q _. unfold trailing_body. rewrite slot_reads, map_seq_S, app_assoc.
      f_equal; apply mapper_eq; try reflexivity; lia. }
  reflexivity.
Qed.

Lemma set_params_reads_expected layers i :
  1 <= n -> set_params_reads layers n d i = Ok (expected_reads layers n d i).
Proof using d_pos.
  intros Hn. pose proof (set_params_reads_locals_expected layers i Hn) as E.
  unfold set_params_reads, set_params_angles.
  unfold set_params_reads_locals in E. by rewrite E.
Qed.
End Reads.

(** Arithmetic progressions of parameter indices *)
Section Progression.
Lemma map_seq_from {B} (f : nat -> B) a b :
  map f (seq a b) = map (fun k => f (a + k)) (seq 0 b).
Proof.
  revert f a. induction b as [|b IH]; intros f a; simpl; [done|].
  rewrite Nat.add_0_r. f_equal.
  rewrite (IH f (S a)), (IH (fun k => f (a + k)) 1).
  apply map_ext. intros k. f_equal. lia.
Qed.

Lemma evens_app index a b :
  evens index (a + b) = evens index a ++ evens (index + 2 * a) b.
Proof.
  unfold evens. rewrite seq_app, map_app. f_equal. simpl.
  rewrite map_seq_from. apply map_ext. intros k. lia.
Qed.

Lemma evens_blocks {B} (proj : B -> nat) (f : nat -> list B) index c m :
  (forall q, map proj (f q) = evens (index + 2 * c * q) c) ->
  map proj (flat_map f (seq 0 m)) = evens index (c * m).
Proof.
  intros Hf. induction m as [|m IH].
  - by rewrite Nat.mul_0_r.
  - rewrite flat_map_seq_S, map_app, IH, Hf.
    replace (c * S m) with (c * m + c) by lia. rewrite evens_app.
    do 2 f_equal. lia.
Qed.

Lemma layer_reads_index n d index a i :
  1 <= n -> map r_index (layer_reads n d index a i) = evens index (5 * n).
Proof.
  intros Hn. unfold layer_reads. rewrite !map_app.
  rewrite (evens_blocks _ _ index 4 n).
  2:{ intros q. unfold rotation_reads, evens; simpl.
      repeat (apply (f_equal2 cons); [lia|]). reflexivity. }
  replace (5 * n) with (4 * n + ((n - 1) + 1)) by lia.
  rewrite 2!evens_app. f_equal. f_equal.
  - unfold evens. rewrite map_map. apply map_ext. intros k. simpl. lia.
  - unfold evens; simpl. f_equal. lia.
Qed.

Lemma expected_reads_index layers n d i :
  1 <= n ->
  map r_index (expected_reads layers n d i) = evens 0 (5 * layers * n + n).
Proof.
  intros Hn. unfold expected_reads. rewrite map_app.
  rewrite (evens_blocks _ _ 0 (5 * n) layers).
  2:{ intros l. rewrite layer_reads_index by done. f_equal. lia. }
  replace (5 * layers * n + n) with (5 * n * layers + n) by lia.
  rewrite evens_app. f_equal.
  unfold evens. rewrite map_map. apply map_ext. intros k. simpl. lia.
Qed.

Lemma expected_reads_length layers n d i :
  1 <= n -> length (expected_reads layers n d i) = 5 * layers * n + n.
Proof.
  intros Hn. rewrite <- (length_map r_index), expected_reads_index by done.
  unfold evens. by rewrite length_map, length_seq.
Qed.

Lemma expected_reads_lookup layers n d i k r :
  1 <= n -> expected_reads layers n d i !! k = Some r ->
  r_index r = 2 * k /\ k < 5 * layers * n + n.
Proof.
  intros Hn Hk.
  assert (Hi : map r_index (expected_reads layers n d i) !! k = Some (r_index r)).
  { by rewrite list_lookup_fmap, Hk. }
  rewrite expected_reads_index in Hi by done. unfold evens in Hi.
  rewrite list_lookup_fmap in Hi.
  destruct (seq 0 (5 * layers * n + n) !! k) as [k'|] eqn:Hs; [|done].
  apply lookup_seq in Hs as [-> Hlt]. simpl in Hi. injection Hi as Hi. lia.
Qed.

Lemma expected_reads_noise_lt layers n d i :
  0 < d -> Forall (fun r => r_noise r < d) (expected_reads layers n d i).
Proof.
  intros Hd. unfold expected_reads, layer_reads, rotation_reads.
  rewrite Forall_app. split.
  - rewrite Forall_flat_map. apply Forall_forall. intros l _.
    rewrite !Forall_app. split_and!.
    + rewrite Forall_flat_map. apply Forall_forall. intros q _.
      repeat constructor; simpl; apply Nat.mod_upper_bound; lia.
    + rewrite Forall_fmap. apply Forall_forall. intros j _. simpl.
      apply Nat.mod_upper_bound; lia.
    + repeat constructor; simpl; apply Nat.mod_upper_bound; lia.
  - rewrite Forall_fmap. apply Forall_forall. intros j _. simpl.
    apply Nat.mod_upper_bound; lia.
Qed.
End Progression.

Section Replay.
Context {A : Type}.
Variable angle : nat -> nat -> nat -> result A.
Variables n d : nat.
Hypothesis d_pos : 0 < d.
Let f (r : read) : result A := angle (r_index r) (r_noise r) (r_sample r).

Lemma traverse_app {B C} (g : B -> result C) l1 l2 :
  traverse g (l1 ++ l2)
  = let* a := traverse g l1 in let* b := traverse g l2 in Ok (a ++ b).
Proof.
  induction l1 as [|x l1 IH]; simpl.
  - destruct (traverse g l2); reflexivity.
  - destruct (g x); simpl; [|reflexivity]. rewrite IH.
    destruct (traverse g l1); simpl; [|reflexivity].
    destruct (traverse g l2); reflexivity.
Qed.

Lemma sim_extend st rc ext e :
  sim f st rc -> rc = Raise e -> traverse f (m_p st ++ ext) = Raise e.
Proof. intros Hs ->. simpl in Hs. by rewrite traverse_app, Hs. Qed.

Lemma lockstep_emit : lockstep f (emit read_of) (emit angle).
Proof.
  intros [p index noise i] rc Hs.
  exists (Mapper (p ++ [Read index noise i]) index noise i).
  split; [reflexivity|]. split; [by eexists|].
  destruct rc as [[pc ? ? ?]|e]; simpl in *.
  - destruct Hs as (-> & -> & -> & Hp). unfold emit; simpl.
    assert (Hx : traverse f (p ++ [Read index noise i])
                 = let* a := angle index noise i in Ok (pc ++ [a])).
    { rewrite traverse_app, Hp. simpl. unfold f at 1. simpl.
      by destruct (angle index noise i). }
    destruct (angle index noise i); simpl in *; auto.
  - by rewrite traverse_app, Hs.
Qed.

Lemma lockstep_pure (gt : mapper read -> mapper read) (gc : mapper A -> mapper A) :
  (forall s, m_p (gt s) = m_p s) -> (forall s, m_p (gc s) = m_p s) ->
  (forall st sc, m_index sc = m_index st -> m_noise sc = m_noise st -> m_i sc = m_i st ->
     m_index (gc sc) = m_index (gt st) /\ m_noise (gc sc) = m_noise (gt st)
     /\ m_i (gc sc) = m_i (gt st)) ->
  lockstep f (fun s => Ok (gt s)) (fun s => Ok (gc s)).
Proof.
  intros Ht Hc Hg st [sc|e] Hs.
  - destruct Hs as (Hi & Hn & Hcc & Hp). eexists. split; [reflexivity|].
    split; [exists []; by rewrite app_nil_r, Ht|]. simpl.
    destruct (Hg st sc Hi Hn Hcc) as (? & ? & ?). by rewrite Ht, Hc.
  - eexists. split; [reflexivity|].
    split; [exists []; by rewrite app_nil_r, Ht|]. simpl. by rewrite Ht.
Qed.

Lemma lockstep_bump_index : lockstep f bump_index bump_index.
Proof. apply lockstep_pure; first [done | by intros [] []; simpl; intros -> -> ->]. Qed.

Lemma lockstep_bind_i k : lockstep f (bind_i k) (bind_i k).
Proof. apply lockstep_pure; first [done | by intros [] []; simpl; intros -> -> ->]. Qed.

Lemma lockstep_next_noise : lockstep f (next_noise d) (next_noise d).
Proof using d_pos.
  unfold next_noise. destruct (decide (d = 0)) as [|_]; [lia|].
  apply lockstep_pure; first [done | by intros [] []; simpl; intros -> -> ->].
Qed.

Lemma lockstep_seq ct1 ct2 (cc1 cc2 : stmt A) :
  lockstep f ct1 cc1 -> lockstep f ct2 cc2 ->
  lockstep f (ct1 ;; ct2)%stmt (cc1 ;; cc2)%stmt.
Proof.
  intros H1 H2 st rc Hs.
  destruct (H1 st rc Hs) as (st1 & E1 & [ext1 X1] & S1).
  destruct (H2 st1 _ S1) as (st2 & E2 & [ext2 X2] & S2).
  exists st2. split; [unfold seq_stmt; by rewrite E1|].
  split; [exists (ext1 ++ ext2); by rewrite X2, X1, app_assoc|].
  destruct rc; exact S2.
Qed.

Lemma lockstep_skip : lockstep f skip skip.
Proof.
  intros st rc Hs. exists st. split; [done|]. split; [exists []; by rewrite app_nil_r|].
  by destruct rc.
Qed.

Lemma lockstep_for_each l bt (bc : nat -> stmt A) :
  (forall k, lockstep f (bt k) (bc k)) ->
  lockstep f (for_each l bt) (for_each l bc).
Proof.
  intros Hb. induction l as [|x l IH]; simpl.
  - apply lockstep_skip.
  - by apply lockstep_seq.
Qed.

Lemma set_params_replay layers i :
  exists st, set_params_reads_locals layers n d i = Ok st
    /\ sim f st (set_params_locals angle layers n d i).
Proof using d_pos.
  assert (Hslot : lockstep f (emit read_of ;; bump_index ;; next_noise d)%stmt
                             (emit angle ;; bump_index ;; next_noise d)%stmt).
  { repeat apply lockstep_seq;
      auto using lockstep_emit, lockstep_bump_index, lockstep_next_noise. }
  assert (Hprog : lockstep f
    (for_range 0 layers (fun _ => layer_body read_of n d) ;;
     for_range 0 n (fun _ => trailing_body read_of d))%stmt
    (for_range 0 layers (fun _ => layer_body angle n d) ;;
     for_range 0 n (fun _ => trailing_body angle d))%stmt).
  { apply lockstep_seq; apply lockstep_for_each; intros _.
    - unfold layer_body. apply lockstep_seq; [|apply lockstep_seq].
      + apply lockstep_for_each. intros _. unfold rotation_body.
        repeat apply lockstep_seq;
          auto using lockstep_emit, lockstep_bump_index, lockstep_next_noise.
      + apply lockstep_for_each. intros k. unfold ring_body.
        apply lockstep_seq; [apply lockstep_bind_i | exact Hslot].
      + exact Hslot.
    - exact Hslot. }
  destruct (Hprog (Mapper [] 0 0 i) (Ok (Mapper [] 0 0 i))) as (st & E & _ & S).
  { simpl. auto. }
  exists st. split; [exact E | exact S].
Qed.
End Replay.

(** ** The closed form of the mapper and its consequences *)

Section Schedule.
Lemma map_flat_map {B C D} (g : C -> D) (h : B -> list C) (l : list B) :
  map g (flat_map h l) = flat_map (fun x => map g (h x)) l.
Proof. induction l as [|x l IH]; simpl; [done|]. by rewrite map_app, IH. Qed.

Lemma map_seq_last {B} (g : nat -> B) n :
  1 <= n -> map g (seq 0 (n - 1)) ++ [g (n - 1)] = map g (seq 0 n).
Proof.
  intros Hn. replace n with (S (n - 1)) at 3 by lia. by rewrite map_seq_S.
Qed.

Lemma expected_reads_noise layers n d i :
  1 <= n ->
  map r_noise (expected_reads layers n d i) = code_noise_schedule layers n d.
Proof.
  intros Hn. unfold expected_reads, code_noise_schedule, noise_schedule.
  change (advances [true; false; true; true]) with 3.
  rewrite map_app, map_flat_map, map_map. cbn zeta. f_equal.
  - apply flat_map_ext. intros l. unfold layer_reads.
    rewrite !map_app, map_flat_map, map_map.
    rewrite <- (map_seq_last (fun j => ((3 * n + n) * l + 3 * n + j) mod d) n Hn).
    f_equal; [|f_equal].
    + apply flat_map_ext. intros q. simpl.
      rewrite Nat.add_0_r.
      replace (4 * n * l + 3 * q) with ((3 * n + n) * l + 3 * q) by lia.
      repeat (apply (f_equal2 cons); [f_equal; lia|]). done.
    + apply map_ext. intros j. simpl. f_equal. lia.
    + simpl. do 2 f_equal. lia.
  - apply map_ext. intros q. simpl. f_equal. lia.
Qed.
End Schedule.

Section Traverse.
Context {B C : Type}.
Implicit Types (g : B -> result C) (l : list B).

Lemma traverse_length g l bs : traverse g l = Ok bs -> length bs = length l.
Proof.
  revert bs. induction l as [|x l IH]; intros bs; simpl.
  - by intros [= <-].
  - destruct (g x); simpl; [|done]. destruct (traverse g l); simpl; [|done].
    intros [= <-]. simpl. f_equal. by apply IH.
Qed.

Lemma traverse_ext g1 g2 l :
  (forall x, x ∈ l -> g1 x = g2 x) -> traverse g1 l = traverse g2 l.
Proof.
  induction l as [|x l IH]; intros Hg; simpl; [done|].
  rewrite Hg by left. rewrite IH; [done|]. intros y Hy. apply Hg. by right.
Qed.

Lemma traverse_Raise g l e :
  traverse g l = Raise e -> exists x, x ∈ l /\ g x = Raise e.
Proof.
  induction l as [|x l IH]; simpl; [done|].
  destruct (g x) eqn:Ex; simpl.
  - destruct (traverse g l); simpl; [done|]. intros [= ->].
    destruct IH as (y & Hy & Ey); [done|]. exists y. split; [by right|done].
  - intros [= ->]. exists x. split; [by left|done].
Qed.

Lemma traverse_Ok g l bs x :
  traverse g l = Ok bs -> x ∈ l -> exists b, g x = Ok b.
Proof.
  revert bs. induction l as [|y l IH]; intros bs; simpl.
  - intros _ Hx. by apply elem_of_nil in Hx.
  - destruct (g y) eqn:Ey; simpl; [|done].
    destruct (traverse g l) eqn:El; simpl; [|done]. intros _ Hx.
    apply elem_of_cons in Hx as [->|Hx]; [eauto|]. by eapply IH.
Qed.
End Traverse.

Lemma traverse_total {B C} (g : B -> result C) (l : list B) :
  (forall x, x ∈ l -> exists b, g x = Ok b) -> exists bs, traverse g l = Ok bs.
Proof.
  induction l as [|x l IH]; intros Hg; simpl; [by eexists|].
  destruct (Hg x) as [b ->]; [by left|]. simpl.
  destruct IH as [bs ->]; [intros y Hy; apply Hg; by right|]. simpl. by eexists.
Qed.

Lemma expected_reads_sample layers n d i :
  Forall (fun r => r_sample r = i \/ r_sample r + 2 <= n) (expected_reads layers n d i).
Proof.
  assert (Hring : forall c, c = i \/ c + 2 <= n ->
            ring_sample n c = i \/ ring_sample n c + 2 <= n).
  { intros c Hc. unfold ring_sample. case_decide; [done|]. right. lia. }
  assert (Hlayer : forall l, layer_sample n i l = i \/ layer_sample n i l + 2 <= n).
  { intros [|l]; simpl; [by left|]. apply Hring. by left. }
  unfold expected_reads, layer_reads, rotation_reads.
  rewrite Forall_app. split.
  - rewrite Forall_flat_map. apply Forall_forall. intros l _.
    rewrite !Forall_app. split_and!.
    + rewrite Forall_flat_map. apply Forall_forall. intros q _.
      repeat (constructor; [simpl; apply Hlayer|]). constructor.
    + rewrite Forall_fmap. apply Forall_forall. intros j Hj. simpl.
      apply elem_of_seq in Hj. right. lia.
    + constructor; [simpl; apply Hring, Hlayer|constructor].
  - rewrite Forall_fmap. apply Forall_forall. intros j _. simpl. apply Hlayer.
Qed.

Section Mapper.
Context {A : Type}.
Variable angle : nat -> nat -> nat -> result A.

(** The mapper emits, in order, the angles of the reads of the closed form,
    and stops at the first read that raises. *)
Lemma set_params_angles_expected layers n d i :
  1 <= n -> 0 < d ->
  set_params_angles angle layers n d i
  = traverse (fun r => angle (r_index r) (r_noise r) (r_sample r))
             (expected_reads layers n d i)
  /\ forall s, set_params_locals angle layers n d i = Ok s ->
       m_index s = 10 * n * layers + 2 * n.
Proof.
  intros Hn Hd.
  destruct (set_params_replay angle n d Hd layers i) as (st & E & S).
  rewrite set_params_reads_locals_expected in E by done. injection E as <-.
  unfold set_params_angles.
  destruct (set_params_locals angle layers n d i) as [sc|e]; simpl in *.
  - destruct S as (Hi & _ & _ & Hp). split; [done|]. by intros s [= <-].
  - split; [done|]. done.
Qed.
End Mapper.

Section Claims.
Context {F : Type} `{Float F}.

Lemma angle_of_in_range (params : list F) x_input r e :
  r_index r + 1 < length params ->
  angle_of_read params x_input r = Raise e ->
  e = LatentIndexError (r_noise r) \/ e = SampleIndexError (r_sample r).
Proof.
  intros Hr. unfold angle_of_read, angle_of, item.
  destruct (lookup_lt_is_Some_2 params (r_index r)) as [a ->]; [lia|].
  destruct (lookup_lt_is_Some_2 params (r_index r + 1)) as [b ->]; [lia|].
  simpl. destruct (x_input !! r_noise r) as [row|]; simpl; [|intros [= <-]; auto].
  destruct (row !! r_sample r); simpl; [done|intros [= <-]; auto].
Qed.

Lemma angle_of_Ok (params : list F) x_input index noise i b :
  angle_of params x_input index noise i = Ok b -> index + 1 < length params.
Proof.
  intros Hb. destruct (params !! (index + 1)) eqn:El.
  - by apply lookup_lt_Some in El.
  - exfalso. unfold angle_of, item in Hb. rewrite El in Hb.
    destruct (params !! index); simpl in Hb; [|done].
    destruct (x_input !! noise) as [row|]; simpl in Hb; [|done].
    destruct (row !! i); simpl in Hb; done.
Qed.

(** The mapper returns when the parameter vector is long enough and the
    latent matrix has [latent_dim] rows wide enough for the sample column
    and for the columns the ring loop selects. *)
Lemma set_params_returns (layers nqubits latent_dim : nat) (params : list F)
    (x_input : list (list F)) (i : nat) :
  1 <= nqubits -> 1 <= latent_dim ->
  params_length layers nqubits <= length params ->
  latent_dim <= length x_input ->
  Forall (fun row => i < length row /\ nqubits <= length row + 1) x_input ->
  exists p, set_params layers nqubits latent_dim params x_input i = Ok p.
Proof.
  intros Hn Hd Hlen Hrows Hcols. unfold params_length in Hlen. unfold set_params.
  destruct (set_params_angles_expected (angle_of params x_input)
              layers nqubits latent_dim i Hn Hd) as [-> _].
  apply traverse_total. intros r Hr.
  pose proof (expected_reads_noise_lt layers nqubits latent_dim i Hd) as Hnoise.
  pose proof (expected_reads_sample layers nqubits latent_dim i) as Hsample.
  rewrite Forall_forall in Hnoise, Hsample.
  specialize (Hnoise r Hr). specialize (Hsample r Hr). simpl in Hnoise, Hsample.
  apply list_elem_of_lookup in Hr as [k Hk].
  destruct (expected_reads_lookup _ _ _ _ _ _ Hn Hk) as [Hi Hlt].
  unfold angle_of, item.
  destruct (lookup_lt_is_Some_2 params (r_index r)) as [a ->]; [lia|].
  destruct (lookup_lt_is_Some_2 params (r_index r + 1)) as [b ->]; [lia|].
  destruct (lookup_lt_is_Some_2 x_input (r_noise r)) as [row Hrow]; [lia|].
  rewrite Hrow. simpl.
  rewrite Forall_lookup in Hcols. destruct (Hcols _ _ Hrow) as [Hc1 Hc2].
  destruct (lookup_lt_is_Some_2 row (r_sample r)) as [x ->]; [lia|].
  simpl. by eexists.
Qed.

Lemma traverse_lookup_Ok {B C} (g : B -> result C) (l : list B) (bs : list C) k x :
  traverse g l = Ok bs -> l !! k = Some x ->
  exists b, bs !! k = Some b /\ g x = Ok b.
Proof.
  revert bs k. induction l as [|y l IH]; intros bs k E Hk; [done|].
  simpl in E. destruct (g y) as [b|] eqn:Ey; simpl in E; [|done].
  destruct (traverse g l) as [bs'|] eqn:El; simpl in E; [|done].
  injection E as <-. destruct k as [|k]; simpl in *.
  - injection Hk as <-. by exists b.
  - by apply IH.
Qed.

(** what a returned angle is made of (lines 97-98 and their copies) *)
Lemma angle_of_inv (params : list F) x_input index noise i a :
  angle_of params x_input index noise i = Ok a ->
  exists scale bias row x,
    params !! index = Some scale /\ params !! (index + 1) = Some bias
    /\ x_input !! noise = Some row /\ row !! i = Some x
    /\ a = fadd (fmul scale x) bias.
Proof.
  unfold angle_of, item. intros E.
  destruct (params !! index) as [scale|] eqn:E1; simpl in E; [|done].
  destruct (x_input !! noise) as [row|] eqn:E2; simpl in E; [|done].
  destruct (row !! i) as [x|] eqn:E3; simpl in E; [|done].
  destruct (params !! (index + 1)) as [bias|] eqn:E4; simpl in E; [|done].
  injection E as <-. exists scale, bias, row, x. auto.
Qed.

(** C1. With nqubits >= 1, latent_dim >= 1 and a parameter vector of
    length 10*layers*nqubits + 2*nqubits, the mapper emits
    5*layers*nqubits + nqubits angles; the k-th one reads params[2k] and
    params[2k+1], both inside the vector, and a noise row below
    latent_dim; the running index ends at the length of the vector and the
    running noise below latent_dim.  The angle list is the list of these
    reads evaluated in order, so the run never raises on the parameter
    vector, and when it returns the index equals the vector's length and
    the k-th angle is params[2k] * x + params[2k+1], with x the entry of
    the latent matrix at the noise row and sample column of that angle.
    Every entry of the vector is read by exactly one angle.  The run
    returns when the latent matrix has latent_dim rows, each with the
    sample column i and at least nqubits - 1 columns. *)
Theorem set_params_consumes_parameter_vector
    (layers nqubits latent_dim : nat) (params : list F)
    (x_input : list (list F)) (i : nat) :
  1 <= nqubits -> 1 <= latent_dim ->
  length params = params_length layers nqubits ->
  exists s,
    set_params_reads_locals layers nqubits latent_dim i = Ok s
    /\ length (m_p s) = 5 * layers * nqubits + nqubits
    /\ (forall k r, m_p s !! k = Some r ->
          r_index r = 2 * k /\ r_index r + 1 < length params
          /\ r_noise r < latent_dim)
    /\ m_index s = length params
    /\ m_noise s < latent_dim
    /\ set_params layers nqubits latent_dim params x_input i
       = traverse (angle_of_read params x_input) (m_p s)
    /\ (forall e, set_params layers nqubits latent_dim params x_input i = Raise e ->
          forall k, e <> ParamsIndexError k)
    /\ (forall p, set_params layers nqubits latent_dim params x_input i = Ok p ->
          length p = 5 * layers * nqubits + nqubits
          /\ set_params_final_index layers nqubits latent_dim params x_input i
             = Ok (length params))
    /\ (forall p, set_params layers nqubits latent_dim params x_input i = Ok p ->
          forall k, k < 5 * layers * nqubits + nqubits ->
            exists r scale bias row x,
              m_p s !! k = Some r
              /\ params !! (2 * k) = Some scale
              /\ params !! (2 * k + 1) = Some bias
              /\ x_input !! r_noise r = Some row
              /\ row !! r_sample r = Some x
              /\ p !! k = Some (fadd (fmul scale x) bias))
    /\ (forall j, j < length params ->
          exists k r,
            m_p s !! k = Some r
            /\ (j = r_index r \/ j = r_index r + 1)
            /\ forall k' r', m_p s !! k' = Some r' ->
                 j = r_index r' \/ j = r_index r' + 1 -> k' = k)
    /\ (latent_dim <= length x_input ->
        Forall (fun row => i < length row /\ nqubits <= length row + 1) x_input ->
        exists p, set_params layers nqubits latent_dim params x_input i = Ok p
                  /\ set_params_final_index layers nqubits latent_dim params x_input i
                     = Ok (length params)).
Proof.
  intros Hn Hd Hlen. pose proof Hlen as Hlen'. unfold params_length in Hlen.
  eexists. split; [by apply set_params_reads_locals_expected|]. simpl.
  destruct (set_params_angles_expected (angle_of params x_input)
              layers nqubits latent_dim i Hn Hd) as [Ha Hfin].
  assert (Hreads : forall k r, expected_reads layers nqubits latent_dim i !! k = Some r ->
            r_index r = 2 * k /\ r_index r + 1 < length params
            /\ r_noise r < latent_dim).
  { intros k r Hk.
    destruct (expected_reads_lookup _ _ _ _ _ _ Hn Hk) as [-> Hlt].
    split; [done|]. split; [lia|].
    pose proof (expected_reads_noise_lt layers nqubits latent_dim i Hd) as Hall.
    rewrite Forall_lookup in Hall. by eapply Hall. }
  assert (Hfinal : forall p,
            set_params layers nqubits latent_dim params x_input i = Ok p ->
            set_params_final_index layers nqubits latent_dim params x_input i
            = Ok (length params)).
  { intros p Hp. unfold set_params, set_params_angles in Hp.
    unfold set_params_final_index.
    destruct (set_params_locals _ _ _ _ _) as [s|] eqn:Es; [|done]. simpl.
    f_equal. rewrite (Hfin s eq_refl). lia. }
  split; [by apply expected_reads_length|].
  split; [exact Hreads|]. split; [lia|].
  split; [apply Nat.mod_upper_bound; lia|].
  split; [exact Ha|].
  split; [|split; [|split; [|split]]].
  - intros e He k ->. unfold set_params in He. rewrite Ha in He.
    apply traverse_Raise in He as (r & Hr & Er).
    apply list_elem_of_lookup in Hr as [j Hj].
    destruct (Hreads j r Hj) as (_ & Hlt & _).
    by destruct (angle_of_in_range params x_input r _ Hlt Er).
  - intros p Hp. split; [|by eapply Hfinal].
    unfold set_params in Hp. rewrite Ha in Hp.
    apply traverse_length in Hp. by rewrite Hp, expected_reads_length.
  - intros p Hp k Hk. unfold set_params in Hp. rewrite Ha in Hp.
    destruct (lookup_lt_is_Some_2 (expected_reads layers nqubits latent_dim i) k)
      as [r Hr]; [by rewrite expected_reads_length|].
    destruct (traverse_lookup_Ok _ _ _ _ _ Hp Hr) as (a & Hpk & Ea).
    destruct (Hreads k r Hr) as (Hi & _ & _).
    apply angle_of_inv in Ea as (scale & bias & row & x & E1 & E2 & E3 & E4 & ->).
    rewrite Hi in E1, E2. by exists r, scale, bias, row, x.
  - intros j Hj. pose proof (Nat.div_mod_eq j 2) as Hdiv.
    pose proof (Nat.mod_upper_bound j 2 ltac:(lia)) as Hmod.
    destruct (lookup_lt_is_Some_2 (expected_reads layers nqubits latent_dim i) (j / 2))
      as [r Hr]; [rewrite expected_reads_length by done; lia|].
    exists (j / 2), r. destruct (Hreads _ r Hr) as (Hi & _ & _).
    split; [done|]. split; [lia|].
    intros k' r' Hr' Hj'. destruct (Hreads _ r' Hr') as (Hi' & _ & _). lia.
  - intros Hrows Hcols.
    destruct (set_params_returns layers nqubits latent_dim params x_input i)
      as [p Hp]; [done|done|lia|done|done|].
    exists p. split; [done|]. by eapply Hfinal.
Qed.

Lemma circuit_add_all_queue gs c :
  c_queue (circuit_add_all gs c) = c_queue c ++ gs.
Proof.
  revert c. induction gs as [|g gs IH]; intros c; simpl.
  - by rewrite app_nil_r.
  - rewrite IH. simpl. by rewrite <- app_assoc.
Qed.

Lemma length_flat_map_const {B C} (h : B -> list C) c (l : list B) :
  (forall x, length (h x) = c) -> length (flat_map h l) = c * length l.
Proof.
  intros Hh. induction l as [|x l IH]; simpl; [lia|].
  rewrite length_app, Hh, IH. lia.
Qed.

Lemma generator_circuit_slots layers nqubits :
  1 <= nqubits ->
  angle_slots (generator_circuit layers nqubits) = 5 * layers * nqubits + nqubits.
Proof.
  intros Hn. unfold angle_slots, generator_circuit.
  rewrite circuit_add_all_queue. simpl. unfold generator_gates.
  rewrite length_app, length_map, length_seq.
  rewrite (length_flat_map_const _ (5 * nqubits)), length_seq; [lia|].
  intros _. unfold layer_gates.
  rewrite !length_app, length_map, length_seq.
  rewrite (length_flat_map_const _ 4), length_seq; [simpl; lia|done].
Qed.

(** C2. The number of angles the mapper emits equals the number of
    parameterized gates of the circuit template that execute builds, and
    both are 5*layers*nqubits + nqubits. *)
Theorem set_params_angle_count_matches_circuit
    (layers nqubits latent_dim : nat) (params : list F)
    (x_input : list (list F)) (i : nat) :
  1 <= nqubits -> 1 <= latent_dim ->
  angle_slots (generator_circuit layers nqubits) = 5 * layers * nqubits + nqubits
  /\ (exists reads, set_params_reads layers nqubits latent_dim i = Ok reads
        /\ length reads = angle_slots (generator_circuit layers nqubits))
  /\ (forall p, set_params layers nqubits latent_dim params x_input i = Ok p ->
        length p = angle_slots (generator_circuit layers nqubits)).
Proof.
  intros Hn Hd. rewrite generator_circuit_slots by done.
  split; [done|]. split.
  - eexists. split; [by apply set_params_reads_expected|].
    by apply expected_reads_length.
  - intros p Hp. unfold set_params in Hp.
    destruct (set_params_angles_expected (angle_of params x_input)
                layers nqubits latent_dim i Hn Hd) as [Ha _].
    rewrite Ha in Hp. apply traverse_length in Hp.
    by rewrite Hp, expected_reads_length.
Qed.

(** C3, as amended. In every layer the four angles of a qubit read noise
    counters a, a+1, a+1, a+2 and leave the counter at a+3 (the noise
    index advances after the 1st, 3rd and 4th angle, not after the 2nd);
    each of the nqubits ring angles advances it; after the layers one
    angle per qubit is emitted, each advancing it. *)
Theorem set_params_noise_schedule (layers nqubits latent_dim i : nat) :
  1 <= nqubits -> 1 <= latent_dim ->
  exists reads, set_params_reads layers nqubits latent_dim i = Ok reads
    /\ map r_noise reads = code_noise_schedule layers nqubits latent_dim.
Proof.
  intros Hn Hd. eexists. split; [by apply set_params_reads_expected|].
  by apply expected_reads_noise.
Qed.

(** The mapper checks no length: a parameter vector shorter than
    10*layers*nqubits + 2*nqubits makes it raise, and of a longer one the
    surplus entries are ignored. *)
Lemma set_params_length_mismatch
    (layers nqubits latent_dim : nat) (params : list F)
    (x_input : list (list F)) (i : nat) :
  1 <= nqubits -> 1 <= latent_dim ->
  (length params < params_length layers nqubits ->
     exists e, set_params layers nqubits latent_dim params x_input i = Raise e)
  /\ (params_length layers nqubits <= length params ->
        set_params layers nqubits latent_dim params x_input i
        = set_params layers nqubits latent_dim
            (take (params_length layers nqubits) params) x_input i).
Proof.
  intros Hn Hd. unfold params_length, set_params.
  destruct (set_params_angles_expected (angle_of params x_input)
              layers nqubits latent_dim i Hn Hd) as [Ha _].
  split.
  - intros Hshort. rewrite Ha.
    destruct (traverse _ _) as [p|e] eqn:Et; [|by eexists]. exfalso.
    set (k := 5 * layers * nqubits + nqubits - 1).
    destruct (lookup_lt_is_Some_2 (expected_reads layers nqubits latent_dim i) k)
      as [r Hr]; [rewrite expected_reads_length by done; lia|].
    destruct (expected_reads_lookup _ _ _ _ _ _ Hn Hr) as [Hi _].
    destruct (traverse_Ok _ _ _ r Et) as [b Hb].
    { apply list_elem_of_lookup. eauto. }
    apply angle_of_Ok in Hb. lia.
  - intros Hlong.
    destruct (set_params_angles_expected
                (angle_of (take (10 * layers * nqubits + 2 * nqubits) params) x_input)
                layers nqubits latent_dim i Hn Hd) as [Hb _].
    rewrite Ha, Hb. apply traverse_ext. intros r Hr.
    apply list_elem_of_lookup in Hr as [k Hk].
    destruct (expected_reads_lookup _ _ _ _ _ _ Hn Hk) as [Hi Hlt].
    unfold angle_of, item. rewrite !lookup_take_lt by lia. done.
Qed.
End Claims.

(** ** The training loop *)

Section Training.
Context {F : Type} `{Float F} `{Framework F}.
Implicit Types (w : @world F _) (hams : list observable).

Lemma io_bind_Ok {X Y} (c : io X) (k : X -> io Y) w x w1 :
  c w = Ok (x, w1) -> io_bind c k w = k x w1.
Proof. unfold io_bind. by intros ->. Qed.

Lemma draws_length {X} (draw : rng -> X * rng) n g :
  length (fst (draws draw n g)) = n.
Proof. revert g. induction n as [|n IH]; intros g; simpl; [done|]. by rewrite IH. Qed.

Lemma draws_Forall {X} (P : X -> Prop) (draw : rng -> X * rng) n g :
  (forall g', P (fst (draw g'))) -> Forall P (fst (draws draw n g)).
Proof.
  intros HP. revert g. induction n as [|n IH]; intros g; simpl; constructor; auto.
Qed.

(** ** Shapes of the latent matrix *)

Lemma reshape_shape (r c : nat) (flat : list F) :
  length flat = c * r ->
  length (reshape r c flat) = r
  /\ Forall (fun row => length row = c) (reshape r c flat).
Proof.
  intros Hlen. unfold reshape. split; [by rewrite length_map, length_seq|].
  rewrite Forall_fmap. apply Forall_forall. intros k Hk. simpl.
  apply elem_of_seq in Hk. rewrite length_take, length_drop. nia.
Qed.

Lemma length_omap_total {B C} (g : B -> option C) (l : list B) :
  Forall (fun x => is_Some (g x)) l -> length (omap g l) = length l.
Proof.
  induction 1 as [|x l [y Hy] _ IH]; simpl; [done|]. rewrite Hy. simpl. f_equal. exact IH.
Qed.

Lemma transpose_shape (r c : nat) (m : list (list F)) :
  length m = r -> Forall (fun row => length row = c) m ->
  length (transpose c m) = c
  /\ Forall (fun row => length row = r) (transpose c m).
Proof.
  intros Hr Hc. unfold transpose. split; [by rewrite length_map, length_seq|].
  rewrite Forall_fmap. apply Forall_forall. intros j Hj. simpl.
  apply elem_of_seq in Hj. rewrite length_omap_total; [done|].
  eapply Forall_impl; [exact Hc|]. intros row Hrow. simpl in Hrow.
  apply lookup_lt_is_Some_2. lia.
Qed.

Lemma io_for_ok {X} (P : world -> Prop) (Q : X -> Prop) (l : list nat)
    (body : nat -> io X) :
  (forall i w, i ∈ l -> P w -> exists y w', body i w = Ok (y, w') /\ P w' /\ Q y) ->
  forall w, P w ->
    exists ys w', io_for l body w = Ok (ys, w') /\ P w'
                  /\ length ys = length l /\ Forall Q ys.
Proof.
  induction l as [|i l IH]; intros Hb w Hw; simpl.
  - exists [], w. done.
  - destruct (Hb i w) as (y & w1 & E1 & P1 & Q1); [by left|done|].
    destruct (IH (fun j w' Hj => Hb j w' (list_elem_of_further _ _ _ Hj)) w1 P1)
      as (ys & w2 & E2 & P2 & L2 & Q2).
    exists (y :: ys), w2.
    split; [|split; [done|split; [by simpl; rewrite L2|by constructor]]].
    rewrite (io_bind_Ok _ _ _ _ _ E1), (io_bind_Ok _ _ _ _ _ E2). done.
Qed.

Lemma traverse_Forall2 {B C} (g : B -> result C) (l : list B) bs :
  traverse g l = Ok bs -> Forall2 (fun x b => g x = Ok b) l bs.
Proof.
  revert bs. induction l as [|x l IH]; intros bs; simpl.
  - intros [= <-]. constructor.
  - destruct (g x) eqn:Ex; simpl; [|done].
    destruct (traverse g l) eqn:El; simpl; [|done].
    intros [= <-]. constructor; [done|]. by apply IH.
Qed.

Variable self : @qGAN F.

(** ** Sample generation *)

(** The fake batch: the latent draws advance the generator state, every
    sample re-parameterises the shared circuit, and nothing else of the
    world changes. *)
Lemma generate_fake_samples_ok (params : list F) (samples : nat) hams w :
  1 <= nqubits self -> 1 <= latent_dim self ->
  nqubits self <= samples + 1 ->
  nqubits self <= length hams ->
  params_length (layers self) (nqubits self) <= length params ->
  exists X c,
    generate_fake_samples self params samples hams w
    = Ok ((X, zeros samples),
          World (snd (draws randn1 (latent_dim self * samples) (w_rng w)))
                (w_model w) c (w_files w) (w_calls w))
    /\ length X = samples
    /\ Forall (fun row => length row = nqubits self) X.
Proof.
  intros Hn Hd Hs Hh Hp. unfold generate_fake_samples, generate_latent_points.
  set (dr := draws randn1 (latent_dim self * samples) (w_rng w)).
  set (x_input := transpose (latent_dim self)
                    (reshape samples (latent_dim self) (fst dr))).
  destruct (reshape_shape samples (latent_dim self) (fst dr)) as [Hr1 Hr2];
    [by unfold dr; rewrite draws_length|].
  destruct (transpose_shape _ _ _ Hr1 Hr2) as [Ht1 Ht2]. fold x_input in Ht1, Ht2.
  set (w1 := World (snd dr) (w_model w) (w_circuit w) (w_files w) (w_calls w)).
  set (P := fun w' : world =>
              exists c, w' = World (snd dr) (w_model w) c (w_files w) (w_calls w)).
  set (body := fun i : nat =>
    io_bind (set_params_on self params x_input i) (fun _ => fun w : world =>
      let circuit_execute := circuit_execute (w_circuit w) in
      let* row := traverse (fun ii =>
        let* h := item (ListIndexError ii) hams ii in
        Ok (expectation h circuit_execute)) (seq 0 (nqubits self)) in
      Ok (row, w))).
  destruct (io_for_ok P (fun row => length row = nqubits self) (seq 0 samples) body)
    with (w := w1) as (rows & w2 & E & [c ->] & L & Hrows).
  { intros i w' Hi [c ->]. apply elem_of_seq in Hi. unfold body.
    destruct (set_params_returns (layers self) (nqubits self) (latent_dim self)
                params x_input i) as [p Ep]; [done|done|done|lia| |].
    { eapply Forall_impl; [exact Ht2|]. simpl. intros row ->. lia. }
    erewrite io_bind_Ok; [|unfold set_params_on; rewrite Ep; simpl; reflexivity].
    simpl.
    destruct (traverse_total (fun ii =>
                let* h := item (ListIndexError ii) hams ii in
                Ok (expectation h (circuit_execute (set_parameters c p))))
                (seq 0 (nqubits self))) as [row Erow].
    { intros ii Hii. apply elem_of_seq in Hii. unfold item.
      destruct (lookup_lt_is_Some_2 hams ii) as [h ->]; [lia|]. simpl. by eexists. }
    rewrite Erow. simpl. eexists _, _. split; [reflexivity|].
    split; [by eexists|]. apply traverse_length in Erow. by rewrite Erow, length_seq. }
  { by exists (w_circuit w). }
  rewrite length_seq in L.
  destruct (transpose_shape _ _ _ L Hrows) as [Hx1 Hx2].
  destruct (transpose_shape _ _ _ Hx1 Hx2) as [Hy1 Hy2].
  eexists _, c. split; [|split; [exact Hy1|exact Hy2]].
  unfold io_bind at 1. simpl. unfold io_bind at 1. fold dr x_input w1.
  change (io_for (seq 0 samples) _ w1) with (io_for (seq 0 samples) body w1).
  rewrite E. reflexivity.
Qed.


Context `{Hlaws : !FrameworkLaws F}.

(** The real batch: [samples] successive draws below [real_samples], each
    selecting a row of the distribution. *)
Lemma generate_real_samples_ok (samples : nat) (distribution : array2 F)
    (real_samples : nat) w :
  1 <= real_samples -> real_samples <= length (rows distribution) ->
  exists X,
    generate_real_samples samples distribution real_samples w
    = Ok ((X, ones samples),
          World (snd (draws (randint1 real_samples) samples (w_rng w)))
                (w_model w) (w_circuit w) (w_files w) (w_calls w))
    /\ Forall2 (fun k row => rows distribution !! k = Some row)
         (fst (draws (randint1 real_samples) samples (w_rng w))) X.
Proof using Hlaws.
  intros Hpos Hrows. unfold generate_real_samples.
  set (dr := draws (randint1 real_samples) samples (w_rng w)).
  assert (Hidx : Forall (fun k => k < real_samples) (fst dr)).
  { apply draws_Forall. intros g'. apply randint1_range. lia. }
  destruct (traverse_total (fun k => item (ListIndexError k) (rows distribution) k)
              (fst dr)) as [X EX].
  { intros k Hk. rewrite Forall_forall in Hidx. specialize (Hidx k Hk). unfold item.
    destruct (lookup_lt_is_Some_2 (rows distribution) k) as [row ->]; [lia|].
    by eexists. }
  exists X. split.
  - unfold io_bind at 1. unfold with_rng at 1. simpl. fold dr.
    unfold io_bind, io_lift. rewrite EX. reflexivity.
  - apply traverse_Forall2 in EX. eapply Forall2_impl; [exact EX|].
    intros k row. unfold item. simpl. by destruct (_ !! k); intros [= ->].
Qed.

(** The generator loss *)
Lemma define_cost_gan_ok (params : list F) (samples : nat) hams w :
  1 <= nqubits self -> 1 <= latent_dim self ->
  nqubits self <= samples + 1 ->
  nqubits self <= length hams ->
  params_length (layers self) (nqubits self) <= length params ->
  exists x_fake g c,
    generate_fake_samples self params samples hams w
    = Ok ((x_fake, zeros samples),
          World g (w_model w) c (w_files w) (w_calls w))
    /\ length x_fake = samples
    /\ Forall (fun row => length row = nqubits self) x_fake
    /\ define_cost_gan self params samples hams w
       = Ok (reduce_mean (binary_crossentropy (ones samples)
                            (model_call (w_model w) x_fake)),
             World g (w_model w) c (w_files w)
                   (w_calls w ++ [Discriminate x_fake;
                                  Crossentropy (ones samples)
                                    (model_call (w_model w) x_fake)])).
Proof.
  intros Hn Hd Hs Hh Hp.
  destruct (generate_fake_samples_ok params samples hams w Hn Hd Hs Hh Hp)
    as (X & c & E & HX1 & HX2).
  eexists X, _, c. split; [exact E|]. split; [done|]. split; [done|].
  unfold define_cost_gan. rewrite (io_bind_Ok _ _ _ _ _ E).
  unfold io_bind, call, io_ret. simpl. by rewrite <- app_assoc.
Qed.

Lemma half_samples_le : half_samples self <= batch_samples self.
Proof. unfold half_samples. apply Nat.Div0.div_le_upper_bound. lia. Qed.

(** One epoch *)
Lemma epoch_ok hams (t : train_locals) w :
  well_configured self hams ->
  params_length (layers self) (nqubits self) <= length (initial_params t) ->
  exists x_real x_fake x_gen g c,
    epoch self hams t w = Ok (epoch_effect self t w x_real x_fake x_gen g c)
    /\ Forall2 (fun k row => rows (reference self) !! k = Some row)
         (fst (draws (randint1 (training_samples self)) (half_samples self) (w_rng w)))
         x_real
    /\ (length x_fake = half_samples self
        /\ Forall (fun row => length row = nqubits self) x_fake)
    /\ (length x_gen = batch_samples self
        /\ Forall (fun row => length row = nqubits self) x_gen).
Proof using Hlaws.
  intros (Hn & Hd & Hs & Hh & Hts & Href) Hp. pose proof half_samples_le as Hhalf.
  destruct (generate_real_samples_ok (half_samples self) (reference self)
              (training_samples self) w) as (x_real & E1 & Hreal); [lia|lia|].
  set (w1 := World _ _ _ _ _) in E1.
  destruct (generate_fake_samples_ok (initial_params t) (half_samples self) hams w1
              Hn Hd Hs Hh Hp) as (x_fake & c2 & E2 & Hf1 & Hf2).
  set (w2 := World _ _ _ _ _) in E2.
  set (r_real := train_on_batch (w_model w) x_real (ones (half_samples self))).
  set (r_fake := train_on_batch (snd r_real) x_fake (zeros (half_samples self))).
  set (w3 := World (w_rng w2) (snd r_fake) c2 (w_files w)
               (w_calls w ++ [TrainOnBatch x_real (ones (half_samples self));
                              TrainOnBatch x_fake (zeros (half_samples self))])).
  destruct (define_cost_gan_ok (initial_params t) (batch_samples self) hams w3)
    as (x_gen & g & c & _ & Hg1 & Hg2 & E3); [done|done|lia|done|done|].
  exists x_real, x_fake, x_gen, g, c. split; [|done].
  unfold epoch. rewrite (io_bind_Ok _ _ _ _ _ E1). simpl.
  rewrite (io_bind_Ok _ _ _ _ _ E2). simpl.
  unfold do_train_on_batch at 1. unfold io_bind at 1. unfold io_bind at 1.
  unfold call at 1. simpl. fold r_real.
  unfold do_train_on_batch at 1. unfold io_bind at 1. unfold io_bind at 1.
  unfold call at 1. simpl. fold r_fake. rewrite <- app_assoc. simpl.
  fold w3. rewrite (io_bind_Ok _ _ _ _ _ E3).
  unfold savetxt, save_weights, io_bind, call, io_ret, epoch_effect, checkpoint.
  simpl. fold r_real r_fake. rewrite <- !app_assoc. reflexivity.
Qed.


(** ** What a returning epoch has done *)

Lemma io_bind_inv {X Y} (c : io X) (k : X -> io Y) w r :
  io_bind c k w = Ok r -> exists x w1, c w = Ok (x, w1) /\ k x w1 = Ok r.
Proof.
  unfold io_bind. destruct (c w) as [[x w1]|e]; simpl; [|done]. intros E. by exists x, w1.
Qed.

Lemma io_for_inv {X} (P : world -> Prop) (l : list nat) (body : nat -> io X) :
  (forall i w y w', body i w = Ok (y, w') -> P w -> P w') ->
  forall w ys w', P w -> io_for l body w = Ok (ys, w') -> P w'.
Proof.
  intros Hb. induction l as [|i l IH]; intros w ys w' Hw; simpl.
  - by intros [= <- <-].
  - intros E. apply io_bind_inv in E as (y & w1 & E1 & E).
    apply io_bind_inv in E as (ys' & w2 & E2 & E). injection E as <- <-.
    eapply IH; [|exact E2]. by eapply Hb.
Qed.

Lemma generate_real_samples_inv (samples : nat) (distribution : array2 F)
    (real_samples : nat) w r w' :
  generate_real_samples samples distribution real_samples w = Ok (r, w') ->
  exists X,
    r = (X, ones samples)
    /\ w' = World (snd (draws (randint1 real_samples) samples (w_rng w)))
                  (w_model w) (w_circuit w) (w_files w) (w_calls w)
    /\ Forall2 (fun k row => rows distribution !! k = Some row)
         (fst (draws (randint1 real_samples) samples (w_rng w))) X.
Proof.
  unfold generate_real_samples. intros E.
  apply io_bind_inv in E as (idx & w1 & E1 & E). injection E1 as <- <-.
  apply io_bind_inv in E as (X & w2 & E2 & E). injection E as <- <-.
  unfold io_lift in E2.
  destruct (traverse _ _) as [X'|e] eqn:EX; [|done]. injection E2 as <- <-.
  exists X'. split; [done|]. split; [done|].
  apply traverse_Forall2 in EX. eapply Forall2_impl; [exact EX|].
  intros k row. unfold item. simpl. by destruct (_ !! k); intros [= ->].
Qed.

Lemma generate_fake_samples_inv (params : list F) (samples : nat) hams w r w' :
  generate_fake_samples self params samples hams w = Ok (r, w') ->
  exists X c,
    r = (X, zeros samples)
    /\ w' = World (snd (draws randn1 (latent_dim self * samples) (w_rng w)))
                  (w_model w) c (w_files w) (w_calls w)
    /\ length X = samples.
Proof.
  unfold generate_fake_samples, generate_latent_points. intros E.
  apply io_bind_inv in E as (x_input & w1 & E1 & E).
  apply io_bind_inv in E1 as (flat & w0 & E0 & E1).
  injection E0 as <- <-. injection E1 as <- <-.
  apply io_bind_inv in E as (rows & w2 & E2 & E). injection E as <- <-.
  set (dr := draws randn1 (latent_dim self * samples) (w_rng w)) in *.
  apply (io_for_inv (fun w' : world =>
           exists c, w' = World (snd dr) (w_model w) c (w_files w) (w_calls w)))
    in E2 as [c ->].
  - eexists _, c. split; [reflexivity|]. split; [reflexivity|].
    unfold transpose. by rewrite length_map, length_seq.
  - intros i w3 y w4 Eb [c ->].
    apply io_bind_inv in Eb as ([] & w5 & E5 & Eb). unfold set_params_on in E5.
    destruct (set_params _ _ _ _ _ _) as [p|e]; [|done]. injection E5 as <-.
    simpl in Eb. destruct (traverse _ _) as [row|e]; [|done]. injection Eb as <- <-.
    by eexists.
  - by exists (w_circuit w).
Qed.

Lemma define_cost_gan_inv (params : list F) (samples : nat) hams w loss w' :
  define_cost_gan self params samples hams w = Ok (loss, w') ->
  exists x_fake g c,
    generate_fake_samples self params samples hams w
    = Ok ((x_fake, zeros samples), World g (w_model w) c (w_files w) (w_calls w))
    /\ length x_fake = samples
    /\ loss = reduce_mean (binary_crossentropy (ones samples)
                             (model_call (w_model w) x_fake))
    /\ w' = World g (w_model w) c (w_files w)
                  (w_calls w ++ [Discriminate x_fake;
                                 Crossentropy (ones samples)
                                   (model_call (w_model w) x_fake)]).
Proof.
  unfold define_cost_gan. intros E.
  apply io_bind_inv in E as (r & w1 & E1 & E).
  destruct (generate_fake_samples_inv _ _ _ _ _ _ E1) as (x_fake & c & -> & -> & HX).
  eexists x_fake, _, c. split; [exact E1|]. split; [exact HX|].
  unfold io_bind, call, io_ret in E. simpl in E. rewrite <- app_assoc in E.
  by injection E as <- <-.
Qed.

Lemma epoch_inv hams (t t' : train_locals) w w' :
  epoch self hams t w = Ok (t', w') ->
  exists x_real x_fake x_gen g c,
    (t', w') = epoch_effect self t w x_real x_fake x_gen g c
    /\ Forall2 (fun k row => rows (reference self) !! k = Some row)
         (fst (draws (randint1 (training_samples self)) (half_samples self) (w_rng w)))
         x_real
    /\ length x_fake = half_samples self
    /\ length x_gen = batch_samples self.
Proof.
  unfold epoch. intros E.
  apply io_bind_inv in E as (r1 & w1 & E1 & E).
  apply generate_real_samples_inv in E1 as (x_real & -> & -> & Hreal).
  apply io_bind_inv in E as (r2 & w2 & E2 & E).
  apply generate_fake_samples_inv in E2 as (x_fake & c2 & -> & -> & Hfake).
  apply io_bind_inv in E as (r_real & w3 & E3 & E).
  unfold do_train_on_batch, io_bind, call in E3. simpl in E3. injection E3 as <- <-.
  apply io_bind_inv in E as (r_fake & w4 & E4 & E).
  unfold do_train_on_batch, io_bind, call in E4. simpl in E4. injection E4 as <- <-.
  apply io_bind_inv in E as (loss & w5 & E5 & E).
  apply define_cost_gan_inv in E5 as (x_gen & g & c & _ & Hgen & -> & ->).
  exists x_real, x_fake, x_gen, g, c. split; [|done].
  unfold savetxt, save_weights, io_bind, call, io_ret in E. simpl in E.
  injection E as <- <-. unfold epoch_effect, checkpoint. simpl.
  rewrite <- !app_assoc. reflexivity.
Qed.

(** ** The training loop *)

Lemma train_setup_ok w :
  train_setup self w
  = Ok (TrainLocals [] []
          (fst (draws (uniform1 (flit (-0.15)) (flit 0.15))
                  (params_length (layers self) (nqubits self)) (w_rng w)))
          (Adadelta (lr self)),
        World (snd (draws (uniform1 (flit (-0.15)) (flit 0.15))
                      (params_length (layers self) (nqubits self)) (w_rng w)))
              (w_model w) (w_circuit w) (w_files w) (w_calls w)).
Proof. reflexivity. Qed.

Lemma epochs_add a b hams (t : train_locals) w :
  epochs self (a + b) hams t w
  = io_bind (epochs self a hams t) (epochs self b hams) w.
Proof.
  revert t w. induction a as [|a IH]; intros t w; simpl; [done|].
  unfold io_bind in *.
  destruct (epoch self hams t w) as [[t1 w1]|e]; simpl; [|done]. apply IH.
Qed.

Lemma epochs_one hams (t : train_locals) w :
  epochs self 1 hams t w = epoch self hams t w.
Proof.
  simpl. unfold io_bind, io_ret. by destruct (epoch self hams t w) as [[t1 w1]|e].
Qed.

Lemma train_upto_add a b hams w :
  train_upto self (a + b) hams w
  = io_bind (train_upto self a hams) (epochs self b hams) w.
Proof.
  unfold train_upto. pose proof (epochs_add a b hams) as Hadd.
  unfold io_bind in *. rewrite train_setup_ok. simpl. apply Hadd.
Qed.

Lemma train_upto_S k hams w :
  train_upto self (S k) hams w
  = io_bind (train_upto self k hams) (epoch self hams) w.
Proof.
  replace (S k) with (k + 1) by lia. rewrite train_upto_add. unfold io_bind.
  destruct (train_upto self k hams w) as [[t1 w1]|e]; simpl; [|done]. apply epochs_one.
Qed.

Lemma written_app (c1 c2 : list (@event F)) : written (c1 ++ c2) = written c1 ++ written c2.
Proof.
  unfold written. apply omap_app.
Qed.

Lemma train_upto_S_inv k hams w r :
  train_upto self (S k) hams w = Ok r ->
  exists (t : train_locals) w1,
    train_upto self k hams w = Ok (t, w1) /\ epoch self hams t w1 = Ok r.
Proof. rewrite train_upto_S. apply io_bind_inv. Qed.

(** Every prefix of the loop that returns has appended one loss of each kind
    per epoch, kept the length of the parameter vector, and made the four
    writes of each epoch. *)
Lemma train_upto_inv k hams w (t : train_locals) w1 :
  train_upto self k hams w = Ok (t, w1) ->
  length (d_loss t) = k /\ length (g_loss t) = k
  /\ length (initial_params t) = params_length (layers self) (nqubits self)
  /\ written (w_calls w1)
     = written (w_calls w) ++ mjoin (replicate k (checkpoint_files self)).
Proof using Hlaws.
  revert t w1. induction k as [|k IH]; intros t w1 E.
  - unfold train_upto, io_bind in E. rewrite train_setup_ok in E. simpl in E.
    injection E as <- <-. simpl. by rewrite draws_length, app_nil_r.
  - apply train_upto_S_inv in E as (t0 & w0 & E0 & E).
    destruct (IH _ _ E0) as (Hd & Hg & Hp & Hw).
    apply epoch_inv in E as (x_real & x_fake & x_gen & g & c & E & _).
    unfold epoch_effect in E. injection E as -> ->. simpl.
    rewrite !length_app, Hd, Hg. simpl.
    split; [lia|]. split; [lia|]. split; [by rewrite apply_gradients_shape|].
    rewrite written_app, Hw. simpl. rewrite <- app_assoc. f_equal.
    clear. induction k as [|k IH]; simpl; [done|]. by rewrite <- IH.
Qed.

(** On a well-configured model every prefix of the loop returns. *)
Lemma train_upto_returns k hams w :
  well_configured self hams ->
  exists (t : train_locals) w1, train_upto self k hams w = Ok (t, w1).
Proof using Hlaws.
  intros Hwc. induction k as [|k IH].
  - eexists _, _. unfold train_upto, io_bind. rewrite train_setup_ok. reflexivity.
  - destruct IH as (t & w1 & E).
    destruct (train_upto_inv _ _ _ _ _ E) as (_ & _ & Hp & _).
    destruct (epoch_ok hams t w1 Hwc) as (x_real & x_fake & x_gen & g & c & Ee & _);
      [lia|].
    eexists _, _. rewrite train_upto_S, (io_bind_Ok _ _ _ _ _ E).
    rewrite Ee. unfold epoch_effect. reflexivity.
Qed.

(** ** The checkpoint files *)

Lemma checkpoint_files_NoDup : NoDup (checkpoint_files self).
Proof.
  unfold checkpoint_files, params_file, dloss_file, gloss_file, weights_file.
  repeat (apply NoDup_cons_2;
          [rewrite ?elem_of_cons, elem_of_nil; simpl; intuition discriminate|]).
  apply NoDup_nil_2.
Qed.

Lemma checkpoint_lookup (t : train_locals) (m : dmodel) (fs : gmap string file) :
  checkpoint self t m fs !! params_file self = Some (TextFile [initial_params t])
  /\ checkpoint self t m fs !! dloss_file self = Some (TextFile [d_loss t])
  /\ checkpoint self t m fs !! gloss_file self = Some (TextFile [g_loss t])
  /\ checkpoint self t m fs !! weights_file self = Some (WeightsFile (get_weights m))
  /\ (forall f, f ∉ checkpoint_files self -> checkpoint self t m fs !! f = fs !! f).
Proof.
  pose proof checkpoint_files_NoDup as Hnd. unfold checkpoint_files in *.
  apply NoDup_cons in Hnd as [H1 Hnd]. apply NoDup_cons in Hnd as [H2 Hnd].
  apply NoDup_cons in Hnd as [H3 _].
  repeat (apply not_elem_of_cons in H1 as [? H1]).
  repeat (apply not_elem_of_cons in H2 as [? H2]).
  repeat (apply not_elem_of_cons in H3 as [? H3]).
  unfold checkpoint. repeat split.
  - rewrite !lookup_insert_ne by done. apply lookup_insert_eq.
  - rewrite !lookup_insert_ne by done. apply lookup_insert_eq.
  - rewrite lookup_insert_ne by done. apply lookup_insert_eq.
  - apply lookup_insert_eq.
  - intros f Hf. repeat (apply not_elem_of_cons in Hf as [? Hf]).
    rewrite !lookup_insert_ne by done. done.
Qed.

Lemma checkpoint_overwrite (t t' : train_locals) (m m' : dmodel) (fs : gmap string file) :
  checkpoint self t' m' (checkpoint self t m fs) = checkpoint self t' m' fs.
Proof.
  apply map_eq. intros f. unfold checkpoint. rewrite !lookup_insert.
  repeat case_decide; done.
Qed.


(** ** The claims on the training loop *)

(** C5. The generator loss.  Whenever [define_cost_gan] returns, the fake
    batch it generated came back from [generate_fake_samples] with the
    all-zeros label array and has [samples] rows; the loss is the mean of
    the binary cross-entropy between the all-ones array of shape
    (samples, 1) and the discriminator's output on that batch, and these
    are the arrays passed to the loss function.  In an epoch the
    discriminator is trained on a fake batch of [half_samples] rows with
    labels zero, while the generator loss is taken on a newly generated
    batch of [batch_samples] rows with labels one, and appended to
    [g_loss].  On a well-configured model [define_cost_gan] returns. *)
Theorem define_cost_gan_inverts_labels hams (params : list F) (samples : nat) w :
  (forall loss w',
     define_cost_gan self params samples hams w = Ok (loss, w') ->
     exists x_fake g c,
       generate_fake_samples self params samples hams w
       = Ok ((x_fake, zeros samples), World g (w_model w) c (w_files w) (w_calls w))
       /\ length x_fake = samples
       /\ loss = reduce_mean (binary_crossentropy (ones samples)
                                (model_call (w_model w) x_fake))
       /\ w_calls w'
          = w_calls w ++ [Discriminate x_fake;
                          Crossentropy (ones samples) (model_call (w_model w) x_fake)])
  /\ (length (ones (F:=F) samples) = samples
      /\ Forall (fun row => row = [flit 1]) (ones (F:=F) samples))
  /\ (forall (t t' : train_locals) w',
        epoch self hams t w = Ok (t', w') ->
        exists x_fake x_gen,
          length x_fake = half_samples self
          /\ length x_gen = batch_samples self
          /\ TrainOnBatch x_fake (zeros (half_samples self)) ∈ w_calls w'
          /\ Crossentropy (ones (batch_samples self)) (model_call (w_model w') x_gen)
             ∈ w_calls w'
          /\ g_loss t'
             = g_loss t ++ [reduce_mean
                              (binary_crossentropy (ones (batch_samples self))
                                 (model_call (w_model w') x_gen))])
  /\ (well_configured self hams ->
      nqubits self <= samples + 1 ->
      params_length (layers self) (nqubits self) <= length params ->
      exists loss w', define_cost_gan self params samples hams w = Ok (loss, w')).
Proof.
  clear Hlaws.
  split; [|split; [|split]].
  - intros loss w' E.
    apply define_cost_gan_inv in E as (x_fake & g & c & E1 & L & -> & ->).
    by exists x_fake, g, c.
  - unfold ones. split; [apply repeat_length|].
    clear. induction samples as [|n IH]; simpl; by constructor.
  - intros t t' w' E.
    apply epoch_inv in E as (x_real & x_fake & x_gen & g & c & E & _ & Hf & Hg).
    unfold epoch_effect in E. injection E as -> ->. simpl.
    exists x_fake, x_gen. split; [done|]. split; [done|].
    split; [|split; [|done]]; apply elem_of_app; right; set_solver.
  - intros (Hn & Hd & _ & Hh & _) Hs Hp.
    destruct (define_cost_gan_ok params samples hams w Hn Hd Hs Hh Hp)
      as (x_fake & g & c & _ & _ & _ & E).
    eexists _, _. exact E.
Qed.


(** C7. The epoch that follows [k] completed ones, whenever it returns,
    has appended one entry to each of the two loss histories, which before
    held [k] entries each, and has made exactly four writes, to the four
    checkpoint paths; after it the three text files hold the current
    parameter vector and the two histories, the weights file holds the
    discriminator's weights, an earlier checkpoint at these paths is
    replaced, and no other path changes.  On a well-configured model every
    epoch returns, and [train] is the loop run for [n_epochs] epochs.  The
    four names are distinct and embed nqubits, latent_dim, layers,
    training_samples, batch_samples and lr, in this order, separated by
    underscores. *)
Theorem train_checkpoints_every_epoch hams w (k : nat) :
  (forall (t2 : train_locals) w2,
     train_upto self (S k) hams w = Ok (t2, w2) ->
     exists (t : train_locals) w1,
       train_upto self k hams w = Ok (t, w1)
       /\ length (d_loss t) = k /\ length (g_loss t) = k
       /\ (exists d, d_loss t2 = d_loss t ++ [d])
       /\ (exists l, g_loss t2 = g_loss t ++ [l])
       /\ written (w_calls w2) = written (w_calls w1) ++ checkpoint_files self
       /\ w_files w2 !! params_file self = Some (TextFile [initial_params t2])
       /\ w_files w2 !! dloss_file self = Some (TextFile [d_loss t2])
       /\ w_files w2 !! gloss_file self = Some (TextFile [g_loss t2])
       /\ w_files w2 !! weights_file self
          = Some (WeightsFile (get_weights (w_model w2)))
       /\ (forall f, f ∉ checkpoint_files self -> w_files w2 !! f = w_files w1 !! f)
       /\ w_files w2 = checkpoint self t2 (w_model w2) (w_files w1)
       /\ (forall (t0 : train_locals) m0,
             checkpoint self t2 (w_model w2) (checkpoint self t0 m0 (w_files w1))
             = w_files w2))
  /\ (well_configured self hams ->
      exists (t2 : train_locals) w2, train_upto self (S k) hams w = Ok (t2, w2))
  /\ train self hams w = train_upto self (n_epochs self) hams w
  /\ (k < n_epochs self ->
      train self hams w
      = io_bind (train_upto self (S k) hams)
                (epochs self (n_epochs self - S k) hams) w)
  /\ NoDup (checkpoint_files self)
  /\ checkpoint_files self
     = (let hp := String.concat "_"
                    [pretty (nqubits self); pretty (latent_dim self);
                     pretty (layers self); pretty (training_samples self);
                     pretty (batch_samples self); format_float (lr self)] in
        ["PARAMS_3Dgaussian_" +:+ hp; "dloss_3Dgaussian_" +:+ hp;
         "gloss_3Dgaussian_" +:+ hp; "discriminator_3Dgaussian_" +:+ hp +:+ ".h5"]).
Proof using Hlaws.
  split; [|split; [|split; [reflexivity|split;
    [|split; [apply checkpoint_files_NoDup|reflexivity]]]]].
  - intros t2 w2 E. apply train_upto_S_inv in E as (t & w1 & E0 & E).
    destruct (train_upto_inv _ _ _ _ _ E0) as (Hd & Hg & _ & _).
    exists t, w1. split; [exact E0|]. split; [exact Hd|]. split; [exact Hg|].
    apply epoch_inv in E as (x_real & x_fake & x_gen & g & c & E & _).
    unfold epoch_effect in E. injection E as -> ->. simpl.
    split; [by eexists|]. split; [by eexists|].
    split; [by rewrite written_app|].
    match goal with
    | |- checkpoint self ?t2 ?m2 ?fs !! _ = _ /\ _ =>
        destruct (checkpoint_lookup t2 m2 fs) as (L1 & L2 & L3 & L4 & L5)
    end.
    split; [exact L1|]. split; [exact L2|]. split; [exact L3|]. split; [exact L4|].
    split; [exact L5|]. split; [reflexivity|].
    intros t0 m0. by rewrite checkpoint_overwrite.
  - intros Hwc. by apply train_upto_returns.
  - intros Hk. change (train self hams w) with (train_upto self (n_epochs self) hams w).
    replace (n_epochs self) with (S k + (n_epochs self - S k)) at 1 by lia.
    apply train_upto_add.
Qed.

(** C9. The parameter vector is created inside [train]: it is made of
    10*layers*nqubits + 2*nqubits successive draws of
    [uniform(-0.15, 0.15)], and after any number of epochs the vector the
    next epoch passes to [set_params] still has this length.  [execute]
    takes the model and the process state only; it builds the observables
    and the circuit and calls [train], and [__call__] is [execute], so no
    caller supplies the vector. *)
Theorem train_creates_parameter_vector hams w (k : nat) (ps : process) :
  (exists (t0 : train_locals) w0,
     train_setup self w = Ok (t0, w0)
     /\ initial_params t0
        = fst (draws (uniform1 (flit (-0.15)) (flit 0.15))
                 (10 * layers self * nqubits self + 2 * nqubits self) (w_rng w))
     /\ length (initial_params t0) = params_length (layers self) (nqubits self))
  /\ (forall (t : train_locals) w1,
        train_upto self k hams w = Ok (t, w1) ->
        length (initial_params t) = params_length (layers self) (nqubits self))
  /\ (well_configured self hams ->
      exists (t : train_locals) w1, train_upto self k hams w = Ok (t, w1))
  /\ execute self ps
     = (let* hamiltonians_list :=
          traverse (hamiltonian (nqubits self)) (seq 0 (nqubits self)) in
        train_upto self (n_epochs self) hamiltonians_list
          (World (ps_rng ps) (define_discriminator self)
                 (make_circuit (generator_circuit (layers self) (nqubits self)))
                 (ps_files ps) []))
  /\ qGAN_call self ps = execute self ps.
Proof using Hlaws.
  split; [|split; [|split; [|split; reflexivity]]].
  - eexists _, _. split; [apply train_setup_ok|]. simpl.
    split; [reflexivity|]. apply draws_length.
  - intros t w1 E. by destruct (train_upto_inv _ _ _ _ _ E) as (_ & _ & Hp & _).
  - intros Hwc. by apply train_upto_returns.
Qed.

End Training.

(** ** The waveform download *)

Section DownloadProperties.
Import IcarusQ.
Context {F : Type} `{Float F} `{Instrument F}.
Implicit Types (waveform : list (list F)) (a : list F).

Lemma sample_size_value : Z.of_nat sample_size = 32000%Z.
Proof. unfold sample_size. by rewrite Nat2Z.inj_mul. Qed.

Lemma sample_size_pos : 0 < sample_size.
Proof. unfold sample_size. lia. Qed.

Opaque sample_size.

Lemma slice_last_Ok a b : slice_last a = Ok b -> b = drop_last a /\ length a <> 1.
Proof.
  unfold slice_last. destruct a as [|x [|y a]]; [|done|]; intros Hb;
    injection Hb as <-; split; simpl; (done || lia).
Qed.

Lemma slice_last_returns a : length a <> 1 -> slice_last a = Ok (drop_last a).
Proof. unfold slice_last. by destruct a as [|x [|y a]]. Qed.

Lemma drop_last_length a : length (drop_last a) = length a - 1.
Proof. unfold drop_last. rewrite length_take. lia. Qed.

Lemma drop_last_snoc a : a <> [] -> exists x, a = drop_last a ++ [x].
Proof.
  intros Ha. unfold drop_last.
  destruct (decide (a = [])) as [|_]; [done|].
  induction a as [|y a IH] using rev_ind; [done|].
  exists y. rewrite length_app. simpl.
  replace (length a + 1 - 1) with (length a) by lia.
  by rewrite take_app_length.
Qed.

Lemma stored_length a row : stored a row -> length row = sample_size.
Proof. intros [Ha|x _]; [done|apply repeat_length]. Qed.

Lemma assign_row_Ok waveform i a waveform' :
  assign_row waveform i a = Ok waveform' ->
  exists row, stored a row /\ waveform' = <[i := row]> waveform.
Proof.
  unfold assign_row. destruct (decide (length a = sample_size)) as [Ha|Ha].
  - intros Hx. injection Hx as Hx. exists a.
    split; [by apply stored_row|by symmetry].
  - destruct a as [|x [|y a]]; [discriminate| |discriminate].
    intros Hx. injection Hx as Hx. exists (repeat x sample_size).
    split; [by apply (stored_broadcast _ x)|by symmetry].
Qed.

Lemma assign_row_Raise waveform i a e :
  assign_row waveform i a = Raise e ->
  e = BroadcastError (length a) sample_size
  /\ length a <> sample_size /\ length a <> 1.
Proof.
  unfold assign_row. destruct (decide (length a = sample_size)) as [Ha|Ha]; [done|].
  destruct a as [|x [|y a]]; [|done|]; intros [= <-]; simpl; split; try done;
    split; try done; simpl in Ha; lia.
Qed.

Lemma download_loop_S n st :
  download_loop (seq 0 (S n)) st
  = let* st' := download_loop (seq 0 n) st in download_channel st' n.
Proof. unfold download_loop. by rewrite seq_S, foldl_app. Qed.

(** the loop after [n] passes *)
Lemma download_loop_Ok conn waveform0 n waveform dump conn' :
  has_shape nchannels sample_size waveform0 -> n <= nchannels ->
  download_loop (seq 0 n) (waveform0, BytesIO, conn) = Ok (waveform, dump, conn') ->
  (dump, conn') = fetched n conn
  /\ has_shape nchannels sample_size waveform
  /\ (forall i, i < n ->
        exists row, stored (drop_last (channel_text i conn)) row
                    /\ waveform !! i = Some row)
  /\ (forall i, n <= i -> waveform !! i = waveform0 !! i).
Proof.
  intros Hshape. revert waveform dump conn'.
  induction n as [|n IH]; intros waveform dump conn' Hn.
  - intros [= <- <- <-]. split; [done|]. split; [done|]. split; [|done].
    intros i Hi. lia.
  - rewrite download_loop_S.
    destruct (download_loop (seq 0 n) _) as [[[wf1 dump1] conn1]|e] eqn:E1; [|done].
    destruct (IH wf1 dump1 conn1) as (Hf & [Hl Hr] & Hrows & Hrest); [lia|done|].
    simpl. unfold download_channel.
    assert (Hfetch : getfo conn1 dump1 = fetched (S n) conn).
    { simpl. by rewrite <- Hf. }
    destruct (getfo conn1 dump1) as [dump2 conn2] eqn:Eg.
    destruct (slice_last (genfromtxt dump2)) as [a|e] eqn:Es; [|done].
    apply slice_last_Ok in Es as [-> _]. simpl.
    destruct (assign_row wf1 n (drop_last (genfromtxt dump2))) as [wf2|e] eqn:Ea;
      [|done].
    simpl. intros [= <- <- <-].
    apply assign_row_Ok in Ea as (row & Hst & ->).
    assert (Htext : genfromtxt dump2 = channel_text n conn).
    { unfold channel_text. by rewrite <- Hfetch. }
    rewrite Htext in Hst.
    split; [done|]. split; [|split].
    + split; [by rewrite length_insert|].
      apply Forall_insert; [done|]. by eapply stored_length.
    + intros i Hi. destruct (decide (i = n)) as [->|Hne].
      * exists row. split; [done|]. apply list_lookup_insert_eq. lia.
      * destruct (Hrows i) as (row' & Hst' & Hrow'); [lia|].
        exists row'. split; [done|]. by rewrite list_lookup_insert_ne.
    + intros i Hi. rewrite list_lookup_insert_ne by lia. apply Hrest. lia.
Qed.

Lemma download_loop_total conn waveform0 n :
  has_shape nchannels sample_size waveform0 -> n <= nchannels ->
  (forall i, i < n -> length (channel_text i conn) = sample_size + 1) ->
  exists waveform dump conn',
    download_loop (seq 0 n) (waveform0, BytesIO, conn) = Ok (waveform, dump, conn')
    /\ forall i, i < n -> waveform !! i = Some (drop_last (channel_text i conn)).
Proof.
  intros Hshape. induction n as [|n IH]; intros Hn Hlen.
  - eexists _, _, _. split; [reflexivity|]. intros i Hi. lia.
  - destruct IH as (wf1 & dump1 & conn1 & E1 & Hrows); [lia|intros i Hi; apply Hlen; lia|].
    destruct (download_loop_Ok _ _ _ _ _ _ Hshape (Nat.lt_le_incl _ _ Hn) E1)
      as (Hf & [Hl Hr] & _ & _).
    rewrite download_loop_S, E1. simpl. unfold download_channel.
    assert (Hfetch : getfo conn1 dump1 = fetched (S n) conn).
    { simpl. by rewrite <- Hf. }
    destruct (getfo conn1 dump1) as [dump2 conn2] eqn:Eg.
    assert (Htext : genfromtxt dump2 = channel_text n conn).
    { unfold channel_text. by rewrite <- Hfetch. }
    rewrite Htext.
    rewrite slice_last_returns by (rewrite Hlen by lia; pose proof sample_size_pos; lia).
    simpl. unfold assign_row.
    rewrite decide_True by (rewrite drop_last_length, Hlen; lia).
    simpl. eexists _, _, _. split; [reflexivity|].
    intros i Hi. destruct (decide (i = n)) as [->|Hne].
    + apply list_lookup_insert_eq. lia.
    + rewrite list_lookup_insert_ne by done. apply Hrows. lia.
Qed.

Lemma zeros_shape :
  has_shape nchannels sample_size (repeat (repeat (flit 0) sample_size) nchannels).
Proof.
  split; [apply repeat_length|]. unfold nchannels. simpl.
  repeat (constructor; [apply repeat_length|]). constructor.
Qed.

(** C10. Whenever [download] returns, the matrix has shape
    (nchannels, sample_size) = (4, 32000), and row [i] holds what was parsed
    in pass [i] without its final entry (numpy spreads a single remaining
    entry over the row).  It does return when every channel file parses to
    sample_size + 1 entries; the parsed array is then the stored row
    followed by the discarded entry. *)
Theorem download_shape (conn : sftp) :
  (forall waveform, download conn = Ok waveform ->
     has_shape nchannels sample_size waveform
     /\ forall i, i < nchannels ->
          exists row, waveform !! i = Some row
            /\ (row = drop_last (channel_text i conn)
                \/ exists x, drop_last (channel_text i conn) = [x]
                             /\ row = repeat x sample_size))
  /\ ((forall i, i < nchannels -> length (channel_text i conn) = sample_size + 1) ->
      exists waveform, download conn = Ok waveform
        /\ has_shape nchannels sample_size waveform
        /\ forall i, i < nchannels ->
             exists row x, waveform !! i = Some row
               /\ channel_text i conn = row ++ [x])
  /\ nchannels = 4 /\ Z.of_nat sample_size = 32000%Z.
Proof.
  split; [|split; [|split; [reflexivity|apply sample_size_value]]].
  - intros waveform. unfold download.
    destruct (download_loop _ _) as [[[wf dump] conn']|e] eqn:E; [|done].
    simpl. intros [= <-].
    destruct (download_loop_Ok _ _ _ _ _ _ zeros_shape (Nat.le_refl _) E)
      as (_ & Hsh & Hrows & _).
    split; [done|]. intros i Hi. destruct (Hrows i Hi) as (row & Hst & Hrow).
    exists row. split; [done|]. destruct Hst as [_|x Hx]; [by left|right; eauto].
  - intros Hlen.
    destruct (download_loop_total conn _ nchannels zeros_shape (Nat.le_refl _) Hlen)
      as (wf & dump & conn' & E & Hrows).
    destruct (download_loop_Ok _ _ _ _ _ _ zeros_shape (Nat.le_refl _) E)
      as (_ & Hsh & _ & _).
    exists wf. split; [unfold download; by rewrite E|]. split; [done|].
    intros i Hi. destruct (drop_last_snoc (channel_text i conn)) as [x Hx].
    { intros Hnil. specialize (Hlen i Hi). rewrite Hnil in Hlen. simpl in Hlen. lia. }
    exists (drop_last (channel_text i conn)), x. split; [by apply Hrows|done].
Qed.

End DownloadProperties.
Transparent IcarusQ.sample_size.

(** ** The mapper at its edges *)

Section MapperEdges.
Context {F : Type} `{Float F}.
Implicit Types (params : list F) (x_input : list (list F)).

(** ** The columns the mapper reads *)

Lemma angle_of_column params x_input x_input' index noise c :
  column x_input c = column x_input' c ->
  angle_of params x_input index noise c = angle_of params x_input' index noise c.
Proof.
  intros Hc. unfold angle_of, item.
  assert (Hn : (fun row : list F => row !! c) <$> (x_input !! noise)
               = (fun row : list F => row !! c) <$> (x_input' !! noise)).
  { unfold column in Hc. apply (f_equal (fun l => l !! noise)) in Hc.
    by rewrite !list_lookup_fmap in Hc. }
  destruct (params !! index); simpl; [|done].
  destruct (x_input !! noise) as [row|], (x_input' !! noise) as [row'|];
    simpl in *; try done.
  injection Hn as Hn. by rewrite Hn.
Qed.

Lemma set_params_agree (layers nqubits latent_dim : nat) params
    x_input x_input' (i : nat) :
  1 <= nqubits -> 1 <= latent_dim ->
  Forall (fun r => column x_input (r_sample r) = column x_input' (r_sample r))
         (expected_reads layers nqubits latent_dim i) ->
  set_params layers nqubits latent_dim params x_input i
  = set_params layers nqubits latent_dim params x_input' i.
Proof.
  intros Hn Hd Hcols. unfold set_params.
  destruct (set_params_angles_expected (angle_of params x_input)
              layers nqubits latent_dim i Hn Hd) as [-> _].
  destruct (set_params_angles_expected (angle_of params x_input')
              layers nqubits latent_dim i Hn Hd) as [-> _].
  apply traverse_ext. intros r Hr. rewrite Forall_forall in Hcols.
  apply angle_of_column, Hcols, Hr.
Qed.

(** X1. The angle array depends on the latent matrix only through column
    [i] and the columns 0 .. nqubits-2 the ring loop binds [i] to: two
    latent matrices that agree on these columns give the same angles, or the
    same exception. *)
Theorem set_params_reads_columns (layers nqubits latent_dim : nat) params
    x_input x_input' (i : nat) :
  1 <= nqubits -> 1 <= latent_dim ->
  (forall c, c = i \/ c + 2 <= nqubits -> column x_input c = column x_input' c) ->
  set_params layers nqubits latent_dim params x_input i
  = set_params layers nqubits latent_dim params x_input' i.
Proof.
  intros Hn Hd Hcols. apply set_params_agree; [done|done|].
  eapply Forall_impl; [apply expected_reads_sample|].
  intros r Hr. simpl in Hr. by apply Hcols.
Qed.

(** X2. With one qubit the ring loop is empty and the angle array depends
    on the latent vector of sample [i] alone. *)
Theorem set_params_single_qubit_column (layers latent_dim : nat) params
    x_input x_input' (i : nat) :
  1 <= latent_dim ->
  column x_input i = column x_input' i ->
  set_params layers 1 latent_dim params x_input i
  = set_params layers 1 latent_dim params x_input' i.
Proof.
  intros Hd Hc. apply set_params_agree; [lia|done|].
  eapply Forall_impl; [apply expected_reads_sample|].
  intros r [Hr|Hr]; simpl in *; [by rewrite Hr|lia].
Qed.

(** ** The angles past the first rotations *)

Lemma rotation_block_length n d index a i :
  length (flat_map (fun q => rotation_reads d (index + 8 * q) (a + 3 * q) i) (seq 0 n))
  = 4 * n.
Proof.
  induction n as [|n IH]; [done|].
  rewrite seq_S, flat_map_app, length_app, IH. simpl. lia.
Qed.

Lemma flat_map_seq_ext {B} (f g : nat -> list B) a n :
  (forall l, a <= l -> f l = g l) -> flat_map f (seq a n) = flat_map g (seq a n).
Proof.
  revert a. induction n as [|n IH]; intros a Hfg; simpl; [done|].
  rewrite Hfg by lia. f_equal. apply IH. intros l Hl. apply Hfg. lia.
Qed.

Lemma expected_reads_after_rotations layers n d i i' :
  2 <= n ->
  drop (4 * n) (expected_reads (S layers) n d i)
  = drop (4 * n) (expected_reads (S layers) n d i').
Proof.
  intros Hn. unfold expected_reads.
  change (seq 0 (S layers)) with (0 :: seq 1 layers). simpl flat_map.
  unfold layer_reads at 1 3. rewrite <- !app_assoc.
  rewrite !drop_app_length' by (by rewrite rotation_block_length).
  assert (Hring : forall c, ring_sample n c = n - 2).
  { intros c. unfold ring_sample. by rewrite decide_False by lia. }
  rewrite !Hring. simpl layer_sample. rewrite !Hring. f_equal. f_equal. f_equal.
  apply flat_map_seq_ext. intros l Hl.
  destruct l as [|l]; [lia|]. simpl. by rewrite !Hring.
Qed.

Lemma traverse_app_Ok {B C} (g : B -> result C) l1 l2 p :
  traverse g (l1 ++ l2) = Ok p ->
  exists p1 p2, p = p1 ++ p2 /\ traverse g l1 = Ok p1 /\ traverse g l2 = Ok p2
                /\ length p1 = length l1.
Proof.
  rewrite traverse_app. destruct (traverse g l1) as [p1|] eqn:E1; simpl; [|done].
  destruct (traverse g l2) as [p2|] eqn:E2; simpl; [|done]. intros [= <-].
  exists p1, p2. split; [done|]. split; [done|]. split; [done|].
  by eapply traverse_length.
Qed.

Lemma traverse_drop {B C} (g : B -> result C) l p k :
  traverse g l = Ok p -> traverse g (drop k l) = Ok (drop k p).
Proof.
  intros E. destruct (decide (k <= length l)) as [Hk|Hk].
  - rewrite <- (take_drop k l) in E.
    apply traverse_app_Ok in E as (p1 & p2 & -> & _ & E2 & L).
    rewrite length_take in L. rewrite drop_app_length' by lia. done.
  - pose proof (traverse_length _ _ _ E) as L.
    rewrite !drop_ge by lia. reflexivity.
Qed.

(** X3. With two or more qubits and at least one layer, every angle past
    the first 4*nqubits is the same whatever sample index was passed. *)
Theorem set_params_ring_ignores_sample (layers nqubits latent_dim : nat) params
    x_input (i i' : nat) p p' :
  2 <= nqubits -> 1 <= layers -> 1 <= latent_dim ->
  set_params layers nqubits latent_dim params x_input i = Ok p ->
  set_params layers nqubits latent_dim params x_input i' = Ok p' ->
  drop (4 * nqubits) p = drop (4 * nqubits) p'.
Proof.
  intros Hn Hl Hd. unfold set_params.
  destruct (set_params_angles_expected (angle_of params x_input)
              layers nqubits latent_dim i) as [-> _]; [lia|lia|].
  destruct (set_params_angles_expected (angle_of params x_input)
              layers nqubits latent_dim i') as [-> _]; [lia|lia|].
  intros E E'. apply (traverse_drop _ _ _ (4 * nqubits)) in E, E'.
  destruct layers as [|layers]; [lia|].
  rewrite (expected_reads_after_rotations layers nqubits latent_dim i i') in E by done.
  rewrite E in E'. by injection E'.
Qed.

(** ** A latent dimension of zero *)

Lemma set_params_divides_by_zero (layers nqubits : nat) params x_input (i : nat) :
  1 <= layers \/ 1 <= nqubits ->
  set_params layers nqubits 0 params x_input i
  = (let* _ := angle_of params x_input 0 0 i in Raise ZeroDivisionError).
Proof.
  intros Hpos. unfold set_params, set_params_angles, set_params_locals, for_range.
  destruct layers as [|layers].
  - destruct nqubits as [|nqubits]; [lia|]. simpl.
    unfold seq_stmt, trailing_body, seq_stmt, emit. simpl.
    by destruct (angle_of params x_input 0 0 i).
  - simpl. unfold seq_stmt at 1 2. unfold layer_body, for_range.
    destruct nqubits as [|nqubits]; simpl.
    + unfold seq_stmt, emit, skip. simpl.
      by destruct (angle_of params x_input 0 0 i).
    + unfold seq_stmt at 1 2. unfold rotation_body, seq_stmt, emit. simpl.
      by destruct (angle_of params x_input 0 0 i).
Qed.

(** X4. With [latent_dim = 0] and at least one angle to emit, the mapper
    evaluates its first angle and then divides by zero; it never returns. *)
Theorem set_params_zero_latent_dim (layers nqubits : nat) params x_input (i : nat) :
  1 <= layers \/ 1 <= nqubits ->
  set_params layers nqubits 0 params x_input i
  = (let* _ := angle_of params x_input 0 0 i in Raise ZeroDivisionError)
  /\ forall p, set_params layers nqubits 0 params x_input i <> Ok p.
Proof.
  intros Hpos. rewrite set_params_divides_by_zero by done. split; [done|].
  intros p. by destruct (angle_of params x_input 0 0 i).
Qed.

(** ** A parameter vector that is too short *)

Lemma traverse_first_Raise {B C} (g : B -> result C) l k x e :
  l !! k = Some x -> g x = Raise e ->
  (forall j y, j < k -> l !! j = Some y -> exists b, g y = Ok b) ->
  traverse g l = Raise e.
Proof.
  intros Hk Hx Hbefore.
  rewrite <- (take_drop_middle l k x Hk), traverse_app.
  destruct (traverse_total g (take k l)) as [bs ->].
  { intros y Hy. apply list_elem_of_lookup in Hy as [j Hj].
    apply lookup_take_Some in Hj as [Hj Hlt]. eauto. }
  simpl. by rewrite Hx.
Qed.

(** X5. The mapper does not wrap around a short parameter vector: with a
    latent matrix it can read, it raises the index error of the first
    entry that is missing. *)
Theorem set_params_short_vector (layers nqubits latent_dim : nat) params
    x_input (i : nat) :
  1 <= nqubits -> 1 <= latent_dim ->
  length params < params_length layers nqubits ->
  latent_dim <= length x_input ->
  Forall (fun row => i < length row /\ nqubits <= length row + 1) x_input ->
  set_params layers nqubits latent_dim params x_input i
  = Raise (ParamsIndexError (length params)).
Proof.
  intros Hn Hd Hshort Hrows Hcols. unfold params_length in Hshort. unfold set_params.
  destruct (set_params_angles_expected (angle_of params x_input)
              layers nqubits latent_dim i Hn Hd) as [-> _].
  set (k := length params / 2).
  assert (Hk : length params = 2 * k \/ length params = 2 * k + 1).
  { unfold k. pose proof (Nat.div_mod_eq (length params) 2) as Hdm.
    pose proof (Nat.mod_upper_bound (length params) 2). lia. }
  assert (Hread : forall j r, expected_reads layers nqubits latent_dim i !! j = Some r ->
            r_index r = 2 * j
            /\ exists row x, x_input !! r_noise r = Some row /\ row !! r_sample r = Some x).
  { intros j r Hj. destruct (expected_reads_lookup _ _ _ _ _ _ Hn Hj) as [Hi _].
    split; [done|].
    pose proof (expected_reads_noise_lt layers nqubits latent_dim i Hd) as Hnoise.
    pose proof (expected_reads_sample layers nqubits latent_dim i) as Hsample.
    rewrite Forall_lookup in Hnoise, Hsample.
    specialize (Hnoise _ _ Hj). specialize (Hsample _ _ Hj). simpl in *.
    destruct (lookup_lt_is_Some_2 x_input (r_noise r)) as [row Hrow]; [lia|].
    rewrite Forall_lookup in Hcols. destruct (Hcols _ _ Hrow) as [Hc1 Hc2].
    destruct (lookup_lt_is_Some_2 row (r_sample r)) as [x Hx]; [lia|]. eauto. }
  destruct (lookup_lt_is_Some_2 (expected_reads layers nqubits latent_dim i) k)
    as [r Hr]; [rewrite expected_reads_length by done; lia|].
  apply (traverse_first_Raise _ _ k r); [done| |].
  - destruct (Hread _ _ Hr) as (Hi & row & x & Hrow & Hx).
    unfold angle_of, item. rewrite Hi, Hrow. remember (2 * k) as a eqn:Ha.
    destruct Hk as [Hk|Hk].
    + rewrite (lookup_ge_None_2 params a) by lia. simpl. f_equal. f_equal. lia.
    + destruct (lookup_lt_is_Some_2 params a) as [s ->]; [lia|]. simpl. rewrite Hx.
      rewrite (lookup_ge_None_2 params (a + 1)) by lia. simpl. f_equal. f_equal. lia.
  - intros j y Hj Hy. destruct (Hread _ _ Hy) as (Hi & row & x & Hrow & Hx).
    unfold angle_of, item. rewrite Hi, Hrow. remember (2 * j) as a eqn:Ha.
    destruct (lookup_lt_is_Some_2 params a) as [s ->]; [lia|].
    destruct (lookup_lt_is_Some_2 params (a + 1)) as [b ->]; [lia|].
    simpl. rewrite Hx. simpl. by eexists.
Qed.

End MapperEdges.

(** ** Sample generation *)

Section Transpose.
Context {F : Type}.
Implicit Types (m : list (list F)).

Lemma omap_map_seq {B C} (h : nat -> B) (g : B -> option C) a n :
  omap g (map h (seq a n)) = omap (fun j => g (h j)) (seq a n).
Proof.
  revert a. induction n as [|n IH]; intros a; simpl; [done|].
  destruct (g (h a)); simpl; [f_equal|]; apply IH.
Qed.

Lemma omap_seq_ext {C} (f g : nat -> option C) a n :
  (forall j, a <= j < a + n -> f j = g j) -> omap f (seq a n) = omap g (seq a n).
Proof.
  revert a. induction n as [|n IH]; intros a Hfg; simpl; [done|].
  rewrite (Hfg a) by lia.
  assert (IH' : omap f (seq (S a) n) = omap g (seq (S a) n)).
  { apply IH. intros j Hj. apply Hfg. lia. }
  destruct (g a); simpl; [f_equal|]; exact IH'.
Qed.

Lemma omap_lookup_seq (row : list F) :
  omap (fun j => row !! j) (seq 0 (length row)) = row.
Proof.
  induction row as [|x row IH]; [done|]. simpl. f_equal.
  rewrite <- fmap_S_seq, omap_map_seq. exact IH.
Qed.

Lemma column_lookup m c j k :
  Forall (fun row => length row = c) m -> j < c ->
  omap (fun row : list F => row !! j) m !! k = m !! k ≫= (fun row => row !! j).
Proof.
  intros Hm Hj. revert k. induction Hm as [|row m Hrow Hm IH]; intros k; [done|].
  simpl. destruct (lookup_lt_is_Some_2 row j) as [x Hx]; [lia|]. rewrite Hx. simpl.
  destruct k as [|k]; simpl; [done|]. apply IH.
Qed.

(** [tf.stack] along axis 1 of the per-qubit lists gives back the rows
    appended sample by sample *)
Lemma transpose_involutive (r c : nat) m :
  length m = r -> Forall (fun row => length row = c) m ->
  transpose r (transpose c m) = m.
Proof.
  intros Hr Hc. apply list_eq. intros k. unfold transpose at 1.
  rewrite list_lookup_fmap. destruct (decide (k < r)) as [Hk|Hk].
  - rewrite lookup_seq_lt by done. simpl.
    destruct (lookup_lt_is_Some_2 m k) as [row Hrow]; [lia|]. rewrite Hrow. f_equal.
    unfold transpose. rewrite omap_map_seq.
    rewrite Forall_lookup in Hc. pose proof (Hc _ _ Hrow) as Hlen.
    etrans; [|apply (omap_lookup_seq row)]. rewrite Hlen.
    apply omap_seq_ext. intros j Hj.
    rewrite (column_lookup m c) by (by apply Forall_lookup || lia). by rewrite Hrow.
  - rewrite lookup_seq_ge by lia. simpl. symmetry. apply lookup_ge_None_2. lia.
Qed.
End Transpose.

Section Generation.
Context {F : Type} `{Float F} `{Framework F}.
Implicit Types (w : @world F _) (hams : list observable).

Lemma reshape_join (r c : nat) (flat : list F) :
  mjoin (reshape r c flat) = take (r * c) flat.
Proof.
  unfold reshape. induction r as [|r IH]; [done|].
  rewrite seq_S, map_app, join_app, IH. simpl. rewrite app_nil_r.
  rewrite take_take_drop. f_equal. lia.
Qed.

Variable self : @qGAN F.

(** X6. [generate_latent_points] always returns: [samples] rows of
    [latent_dim] entries which, read row by row, are the [latent_dim *
    samples] values drawn; only the generator state of the world changes. *)
Theorem generate_latent_points_rows (samples : nat) w :
  exists X,
    generate_latent_points self samples w
    = Ok (X, World (snd (draws randn1 (latent_dim self * samples) (w_rng w)))
                   (w_model w) (w_circuit w) (w_files w) (w_calls w))
    /\ length X = samples
    /\ Forall (fun row => length row = latent_dim self) X
    /\ mjoin X = fst (draws randn1 (latent_dim self * samples) (w_rng w)).
Proof.
  eexists. split; [reflexivity|].
  destruct (reshape_shape samples (latent_dim self)
              (fst (draws randn1 (latent_dim self * samples) (w_rng w)))) as [L R];
    [apply draws_length|].
  split; [exact L|]. split; [exact R|].
  rewrite reshape_join. apply take_ge. rewrite draws_length. lia.
Qed.

Lemma io_for_inv_Forall {X} (P : world -> Prop) (Q : X -> Prop) (l : list nat)
    (body : nat -> io X) :
  (forall i w y w', body i w = Ok (y, w') -> P w -> P w' /\ Q y) ->
  forall w ys w', P w -> io_for l body w = Ok (ys, w') ->
    P w' /\ length ys = length l /\ Forall Q ys.
Proof.
  intros Hb. induction l as [|i l IH]; intros w ys w' Hw; simpl.
  - intros [= <- <-]. done.
  - intros E. apply io_bind_inv in E as (y & w1 & E1 & E).
    apply io_bind_inv in E as (ys' & w2 & E2 & E). injection E as <- <-.
    destruct (Hb _ _ _ _ E1 Hw) as [Hw1 Hy].
    destruct (IH _ _ _ Hw1 E2) as (Hw2 & L & Hys).
    split; [done|]. split; [by simpl; rewrite L|by constructor].
Qed.

Lemma expectations_row hams (st : qstate) n row :
  traverse (fun ii => let* h := item (ListIndexError ii) hams ii in
                      Ok (expectation h st)) (seq 0 n) = Ok row ->
  row = map (fun h => expectation h st) (take n hams).
Proof.
  intros E. pose proof (traverse_length _ _ _ E) as L. rewrite length_seq in L.
  apply traverse_Forall2 in E. apply list_eq. intros k.
  rewrite list_lookup_fmap. destruct (decide (k < n)) as [Hk|Hk].
  - destruct (lookup_lt_is_Some_2 row k) as [b Hb]; [lia|].
    pose proof (Forall2_lookup_lr _ _ _ _ _ _ E (lookup_seq_lt 0 n k Hk) Hb) as Hg.
    simpl in Hg. unfold item in Hg.
    destruct (hams !! k) as [h|] eqn:Hh; simpl in Hg; [|done].
    injection Hg as <-. rewrite Hb, lookup_take_lt, Hh by done. done.
  - rewrite (lookup_ge_None_2 row) by lia.
    by rewrite lookup_take_ge by lia.
Qed.

(** X7. Whenever [generate_fake_samples] returns, the batch has [samples]
    rows of [nqubits] entries, each row lists the expectations of the
    observables of qubits 0 .. nqubits-1 in one state of the circuit, and
    the label array is all zeros; the generator state has advanced by the
    latent draws, and the discriminator, the files and the calls made so far
    are as before. *)
Theorem generate_fake_samples_shape (params : list F) (samples : nat) hams w X y w' :
  generate_fake_samples self params samples hams w = Ok ((X, y), w') ->
  y = zeros samples
  /\ length X = samples
  /\ Forall (fun row => length row = nqubits self
                        /\ exists st : qstate,
                             row = map (fun h => expectation h st)
                                       (take (nqubits self) hams)) X
  /\ w_rng w' = snd (draws randn1 (latent_dim self * samples) (w_rng w))
  /\ w_model w' = w_model w /\ w_files w' = w_files w /\ w_calls w' = w_calls w.
Proof.
  unfold generate_fake_samples, generate_latent_points. intros E.
  apply io_bind_inv in E as (x_input & w1 & E1 & E).
  apply io_bind_inv in E1 as (flat & w0 & E0 & E1).
  injection E0 as <- <-. injection E1 as <- <-.
  apply io_bind_inv in E as (rows & w2 & E2 & E). injection E as <- <- <-.
  set (dr := draws randn1 (latent_dim self * samples) (w_rng w)) in *.
  apply (io_for_inv_Forall
           (fun w' : world =>
              exists c, w' = World (snd dr) (w_model w) c (w_files w) (w_calls w))
           (fun row => length row = nqubits self
                       /\ exists st : qstate,
                            row = map (fun h => expectation h st)
                                      (take (nqubits self) hams)))
    in E2 as ([c ->] & L & Hrows).
  - rewrite length_seq in L.
    assert (Hlen : Forall (fun row : list F => length row = nqubits self) rows).
    { eapply Forall_impl; [exact Hrows|]. by intros row [Hl _]. }
    rewrite (transpose_involutive samples (nqubits self) rows L Hlen). done.
  - intros i w3 r w4 Eb [c ->].
    apply io_bind_inv in Eb as ([] & w5 & E5 & Eb). unfold set_params_on in E5.
    destruct (set_params _ _ _ _ _ _) as [p|e]; [|done]. injection E5 as <-.
    simpl in Eb. destruct (traverse _ _) as [row|e] eqn:Et; [|done].
    injection Eb as <- <-. split; [by eexists|]. split.
    + apply traverse_length in Et. by rewrite Et, length_seq.
    + eexists. by apply expectations_row.
  - by exists (w_circuit w).
Qed.
(** X8. With [latent_dim = 0] the latent matrix has no rows and the first
    sample already fails with an index error. *)
Theorem generate_fake_samples_zero_latent_dim (params : list F) (samples : nat)
    hams w :
  latent_dim self = 0 -> 1 <= nqubits self -> 1 <= samples ->
  2 <= length params ->
  generate_fake_samples self params samples hams w = Raise (LatentIndexError 0).
Proof.
  intros Hd Hn Hs Hp. unfold generate_fake_samples, generate_latent_points.
  unfold io_bind at 1. unfold io_bind at 1. unfold with_rng. simpl.
  rewrite Hd. simpl. unfold io_bind at 1.
  destruct samples as [|samples]; [lia|]. simpl io_for.
  unfold io_bind at 1. unfold io_bind at 1. unfold set_params_on at 1.
  rewrite Hd, set_params_divides_by_zero by lia.
  unfold angle_of, item. destruct params as [|a [|b params]]; simpl in Hp; [lia|lia|].
  reflexivity.
Qed.

End Generation.

(** ** Observables, [execute] and the checkpoints *)

Section Execute.
Context {F : Type} `{Float F} `{Framework F}.
Implicit Types (w : @world F _) (hams : list observable).

Lemma kron_list_lookup (n position j : nat) :
  j < n ->
  map (fun i => if decide (i = position) then pauli_z else identity) (seq 0 n) !! j
  = Some (kron_factor position j).
Proof.
  intros Hj. rewrite list_lookup_fmap, lookup_seq_lt by done. reflexivity.
Qed.

(** the second loop of [hamiltonian] after [m >= 1] passes *)
Lemma hamiltonian_loop (n position m : nat) :
  m < n ->
  foldl (fun (ham : result (option matrix)) i =>
           let* ham := ham in
           let* hi := item (ListIndexError (i + 1))
                        (map (fun i => if decide (i = position) then pauli_z
                                       else identity) (seq 0 n)) (i + 1) in
           if decide (i = 0) then
             let* k0 := item (ListIndexError i)
                          (map (fun i => if decide (i = position) then pauli_z
                                         else identity) (seq 0 n)) i in
             Ok (Some (kron hi k0))
           else
             match ham with
             | Some h => Ok (Some (kron hi h))
             | None => Raise (UnboundLocalError "ham")
             end)
        (Ok None) (seq 0 m)
  = Ok (match m with
        | 0 => None
        | S _ => Some (kron_chain (kron_factor position 0)
                         (map (kron_factor position) (seq 1 m)))
        end).
Proof.
  induction m as [|m IH]; intros Hm; [reflexivity|].
  rewrite seq_S, foldl_app, IH by lia. simpl foldl. cbv beta. simpl rbind.
  unfold item. rewrite !kron_list_lookup by lia. simpl.
  destruct m as [|m'].
  - simpl. reflexivity.
  - rewrite decide_False by lia. f_equal. f_equal.
    change (kron_chain (kron (kron_factor position 1) (kron_factor position 0))
              (map (kron_factor position) (seq 2 (S m'))))
      with (kron_chain (kron_factor position 0)
              (map (kron_factor position) (seq 1 (S (S m'))))).
    rewrite (seq_S (S m')), map_app. unfold kron_chain. rewrite foldl_app. simpl.
    by rewrite Nat.add_1_r.
Qed.

(** X10. With two or more qubits [hamiltonian] returns the observable of
    the Kronecker product taken from the last factor down to the first:
    kron(k[n-1], kron(..., kron(k[1], k[0]))), with Z at [position] and the
    identity elsewhere (all identities when no qubit has that position). *)
Theorem hamiltonian_kron_chain (n position : nat) :
  2 <= n ->
  hamiltonian n position
  = Ok (Hamiltonian n (kron_chain (kron_factor position 0)
                         (map (kron_factor position) (seq 1 (n - 1))))).
Proof.
  intros Hn. unfold hamiltonian. rewrite hamiltonian_loop by lia.
  destruct (n - 1) as [|m] eqn:E; [lia|]. reflexivity.
Qed.

Lemma hamiltonian_unbound (n position : nat) :
  n <= 1 -> hamiltonian n position = Raise (UnboundLocalError "ham").
Proof. intros Hn. by destruct n as [|[|n]]; [| |lia]. Qed.

Variable self : @qGAN F.

(** X11. On a model with a single qubit (a one-column reference array)
    [hamiltonian] reads its local [ham] before any assignment, so [execute]
    raises before the circuit is built or an epoch runs. *)
Theorem execute_single_qubit_unbound (ps : process) :
  nqubits self = 1 ->
  (forall position, hamiltonian (nqubits self) position
                    = Raise (UnboundLocalError "ham"))
  /\ execute self ps = Raise (UnboundLocalError "ham").
Proof.
  intros Hn. split.
  - intros position. apply hamiltonian_unbound. lia.
  - unfold execute. rewrite Hn. reflexivity.
Qed.

Lemma hamiltonians_list_ok :
  2 <= nqubits self ->
  exists hams, traverse (hamiltonian (nqubits self)) (seq 0 (nqubits self)) = Ok hams
               /\ length hams = nqubits self.
Proof.
  intros Hn. destruct (traverse_total (hamiltonian (nqubits self)) (seq 0 (nqubits self)))
    as [hams E].
  - intros position _. unfold hamiltonian. rewrite hamiltonian_loop by lia.
    destruct (nqubits self - 1) as [|m] eqn:E; [lia|]. by eexists.
  - exists hams. split; [done|]. apply traverse_length in E. by rewrite E, length_seq.
Qed.

Context `{Hlaws : !FrameworkLaws F}.

(** after [k] epochs the four files hold the last checkpoint, written over
    the files the loop started with *)
Lemma train_upto_files k hams w (t : train_locals) w1 :
  train_upto self k hams w = Ok (t, w1) ->
  w_files w1 = match k with
               | 0 => w_files w
               | S _ => checkpoint self t (w_model w1) (w_files w)
               end.
Proof.
  revert t w1. induction k as [|k IH]; intros t w1 E.
  - unfold train_upto, io_bind in E. rewrite train_setup_ok in E. simpl in E.
    by injection E as <- <-.
  - apply train_upto_S_inv in E as (t0 & w0 & E0 & E).
    specialize (IH _ _ E0).
    apply epoch_inv in E as (x_real & x_fake & x_gen & g & c & E & _).
    unfold epoch_effect in E. injection E as -> ->. simpl. rewrite IH.
    destruct k; [done|]. apply checkpoint_overwrite.
Qed.


(** X9. After one or more epochs only the last checkpoint is on disk: the
    four files hold the last values, written over the files the loop started
    with; every other path is as it was; and four writes were made per
    epoch. *)
Theorem train_keeps_last_checkpoint k hams w (t : train_locals) w1 :
  train_upto self (S k) hams w = Ok (t, w1) ->
  w_files w1 = checkpoint self t (w_model w1) (w_files w)
  /\ (forall f, f ∉ checkpoint_files self -> w_files w1 !! f = w_files w !! f)
  /\ dom (w_files w1) = dom (w_files w) ∪ list_to_set (checkpoint_files self)
  /\ written (w_calls w1)
     = written (w_calls w) ++ mjoin (replicate (S k) (checkpoint_files self)).
Proof using Hlaws.
  intros E. pose proof (train_upto_files _ _ _ _ _ E) as Hf. simpl in Hf.
  destruct (train_upto_inv _ _ _ _ _ _ E) as (_ & _ & _ & Hw).
  split; [exact Hf|]. split; [|split; [|exact Hw]].
  - intros f Hnot. rewrite Hf.
    destruct (checkpoint_lookup self t (w_model w1) (w_files w)) as (_ & _ & _ & _ & L).
    by apply L.
  - rewrite Hf. unfold checkpoint, checkpoint_files. rewrite !dom_insert_L.
    set_unfold. intros f. tauto.
Qed.

(** X12. On a model of two or more qubits [execute] builds one observable
    per qubit, completes [n_epochs] epochs and returns with [n_epochs]
    entries in each loss history. *)
Theorem execute_completes_training (ps : process) :
  2 <= nqubits self -> 1 <= latent_dim self ->
  nqubits self <= half_samples self + 1 ->
  1 <= training_samples self ->
  length (rows (reference self)) = training_samples self ->
  exists (t : train_locals) w,
    execute self ps = Ok (t, w)
    /\ length (d_loss t) = n_epochs self
    /\ length (g_loss t) = n_epochs self
    /\ length (initial_params t) = params_length (layers self) (nqubits self)
    /\ written (w_calls w) = mjoin (replicate (n_epochs self) (checkpoint_files self))
    /\ w_files w = match n_epochs self with
                   | 0 => ps_files ps
                   | S _ => checkpoint self t (w_model w) (ps_files ps)
                   end.
Proof using Hlaws.
  intros Hn Hd Hs Hts Href.
  destruct (hamiltonians_list_ok Hn) as (hams & Eh & Lh).
  set (w0 := World (ps_rng ps) (define_discriminator self)
               (make_circuit (generator_circuit (layers self) (nqubits self)))
               (ps_files ps) []).
  assert (Hwc : well_configured self hams).
  { unfold well_configured. split_and!; lia. }
  destruct (train_upto_returns self (n_epochs self) hams w0 Hwc) as (t & w & E).
  destruct (train_upto_inv _ _ _ _ _ _ E) as (Hdl & Hgl & Hp & Hw).
  exists t, w. split.
  { unfold execute. rewrite Eh. exact E. }
  split; [exact Hdl|]. split; [exact Hgl|]. split; [exact Hp|]. split; [exact Hw|].
  exact (train_upto_files _ _ _ _ _ E).
Qed.

End Execute.

(** ** Configurations the mapper cannot run *)

Section Misfit.
Context {F : Type} `{Float F}.
Implicit Types (params : list F) (x_input : list (list F)).


End Misfit.

Section Misconfigured.
Context {F : Type} `{Float F} `{Framework F} `{Hlaws : !FrameworkLaws F}.
Implicit Types (w : @world F _) (hams : list observable).
Variable self : @qGAN F.



End Misconfigured.

(** ** The generator circuit *)

Section Circuit.

Lemma circuit_add_all_nqubits gs c :
  c_nqubits (circuit_add_all gs c) = c_nqubits c.
Proof.
  unfold circuit_add_all. revert c.
  induction gs as [|g gs IH]; intros c; [done|]. simpl. by rewrite IH.
Qed.

(** X13. The gates of a layer are the four rotations of every qubit
    followed by a closed ring of controlled rotations: qubit [i] controls
    qubit [(i + 1) mod nqubits]. *)
Theorem layer_gates_ring (nqubits : nat) :
  1 <= nqubits ->
  layer_gates nqubits
  = flat_map rotation_gates (seq 0 nqubits)
    ++ map (fun i => CRY (Z.of_nat i) (Z.of_nat ((i + 1) mod nqubits)) 0)
           (seq 0 nqubits).
Proof.
  intros Hn. unfold layer_gates. f_equal.
  replace nqubits with ((nqubits - 1) + 1) at 3 by lia.
  rewrite seq_app, map_app. simpl. f_equal.
  - apply map_ext_in. intros i Hi. apply in_seq in Hi.
    rewrite Nat.mod_small by lia. f_equal. lia.
  - f_equal. replace (nqubits - 1 + 1) with nqubits by lia.
    rewrite Nat.Div0.mod_same. f_equal. lia.
Qed.

(** X14. With two or more qubits every gate of the generator circuit acts on
    qubits of the register, and no controlled rotation has its control as
    target. *)
Theorem generator_circuit_fits (layers nqubits : nat) :
  2 <= nqubits ->
  c_nqubits (generator_circuit layers nqubits) = nqubits
  /\ forallb (gate_fits nqubits) (c_queue (generator_circuit layers nqubits)) = true.
Proof.
  intros Hn. unfold generator_circuit. split.
  - by rewrite circuit_add_all_nqubits.
  - rewrite circuit_add_all_queue. simpl. apply forallb_forall. intros g Hg.
    unfold generator_gates in Hg. apply in_app_or in Hg as [Hg|Hg].
    + apply in_flat_map in Hg as (l & _ & Hg). unfold layer_gates in Hg.
      apply in_app_or in Hg as [Hg|Hg]; [|apply in_app_or in Hg as [Hg|Hg]].
      * apply in_flat_map in Hg as (q & Hq & Hg). apply in_seq in Hq.
        unfold rotation_gates in Hg. simpl in Hg.
        destruct Hg as [<-|[<-|[<-|[<-|[]]]]]; simpl; apply bool_decide_eq_true; lia.
      * apply in_map_iff in Hg as (i & <- & Hi). apply in_seq in Hi. simpl.
        rewrite !andb_true_iff, !bool_decide_eq_true. lia.
      * destruct Hg as [<-|[]]. simpl.
        rewrite !andb_true_iff, !bool_decide_eq_true. lia.
    + apply in_map_iff in Hg as (q & <- & Hq). apply in_seq in Hq. simpl.
      apply bool_decide_eq_true. lia.
Qed.

End Circuit.

(** ** Channel files of another length *)

Section DownloadEdges.
Import IcarusQ.
Context {F : Type} `{Float F} `{Instrument F}.
Opaque sample_size.

Lemma assign_row_refuses (waveform : list (list F)) i (a : list F) :
  length a <> sample_size -> length a <> 1 ->
  assign_row waveform i a = Raise (BroadcastError (length a) sample_size).
Proof.
  intros Hs H1. unfold assign_row. rewrite decide_False by done.
  destruct a as [|x [|y a]]; [done| |done]. simpl in H1. lia.
Qed.

Lemma download_loop_Raise channels e :
  foldl (fun (st : result (list (list F) * buffer * sftp)) i =>
           let* st := st in download_channel st i) (Raise e) channels = Raise e.
Proof. induction channels as [|i channels IH]; [done|]. simpl. exact IH. Qed.

Lemma slice_last_scalar (a : list F) :
  length a = 1 -> slice_last a = Raise ZeroDimIndexError.
Proof. unfold slice_last. by destruct a as [|x [|y a]]. Qed.

(** the loop when the channels before [k] are well-formed and pass [k]
    raises *)
Lemma download_stops_at (conn : sftp) (k : nat) (e : exn) :
  k < nchannels ->
  (forall i, i < k -> length (channel_text i conn) = sample_size + 1) ->
  (forall waveform,
     (let* a := slice_last (channel_text k conn) in assign_row waveform k a)
     = Raise e) ->
  download conn = Raise e.
Proof.
  intros Hk Hgood Hraise. unfold download, download_loop.
  assert (Hseq : seq 0 nchannels = seq 0 k ++ k :: seq (S k) (nchannels - S k)).
  { replace nchannels with (k + S (nchannels - S k)) at 1 by lia.
    by rewrite seq_app. }
  rewrite Hseq, foldl_app.
  destruct (download_loop_total conn _ k zeros_shape (Nat.lt_le_incl _ _ Hk) Hgood)
    as (wf & dump & conn' & E & _).
  destruct (download_loop_Ok _ _ _ _ _ _ zeros_shape (Nat.lt_le_incl _ _ Hk) E)
    as (Hf & _ & _ & _).
  unfold download_loop in E. rewrite E. simpl. unfold download_channel at 1.
  assert (Hfetch : getfo conn' dump = fetched (S k) conn).
  { simpl. by rewrite <- Hf. }
  destruct (getfo conn' dump) as [dump2 conn2] eqn:Eg.
  assert (Htext : genfromtxt dump2 = channel_text k conn).
  { unfold channel_text. by rewrite <- Hfetch. }
  rewrite Htext. specialize (Hraise wf).
  destruct (slice_last (channel_text k conn)) as [a|e'] eqn:Es; simpl in *.
  - rewrite Hraise. simpl. by rewrite download_loop_Raise.
  - injection Hraise as ->. by rewrite download_loop_Raise.
Qed.

(** X15. [download] refuses a channel file of another length.  Let the
    files of the channels before [k] parse to [sample_size + 1] entries.
    If the file of channel [k] holds a single entry, numpy parses it to a
    0-dimensional array and the slice [[:-1]] raises its index error.  If it
    holds another number of entries and, less the final one, has neither
    [sample_size] entries nor one, the row assignment raises the broadcast
    error.  In both cases nothing is returned. *)
Theorem download_refuses_other_lengths (conn : sftp) (k : nat) :
  k < nchannels ->
  (forall i, i < k -> length (channel_text i conn) = sample_size + 1) ->
  (length (channel_text k conn) = 1 -> download conn = Raise ZeroDimIndexError)
  /\ (length (channel_text k conn) <> 1 ->
      length (drop_last (channel_text k conn)) <> sample_size ->
      length (drop_last (channel_text k conn)) <> 1 ->
      download conn
      = Raise (BroadcastError (length (drop_last (channel_text k conn)))
                 sample_size)).
Proof.
  intros Hk Hgood. split.
  - intros Hone. apply (download_stops_at conn k); [done|done|].
    intros waveform. by rewrite slice_last_scalar.
  - intros Hmany Hs H1. apply (download_stops_at conn k); [done|done|].
    intros waveform. rewrite slice_last_returns by done. simpl.
    by apply assign_row_refuses.
Qed.

End DownloadEdges.
Transparent IcarusQ.sample_size.

(** ** The waveform upload *)

Section UploadProperties.
Import IcarusQ.
Implicit Types (waveform : list (list Z)) (dump data : list Ascii.ascii).



Lemma write_at_start_same_length data dump :
  length dump <= length data -> write_at_start data dump = data.
Proof.
  intros Hl. unfold write_at_start. rewrite drop_ge by done. apply app_nil_r.
Qed.


(** the payloads of the first [n] passes over rows that exist *)
Lemma upload_loop_rows waveform n start dump sent :
  start + n <= length waveform ->
  exists payloads last,
    upload_loop (seq start n) waveform dump sent = (sent ++ payloads, Ok last)
    /\ length payloads = n
    /\ forall k row, k < n -> waveform !! (start + k) = Some row ->
         payloads !! k
         = Some (write_at_start (savetxt_text row)
                   (match k with 0 => dump | S k' => default [] (payloads !! k') end)).
Proof.
  revert start dump sent. induction n as [|n IH]; intros start dump sent Hlen.
  - exists [], dump. simpl. rewrite app_nil_r. split; [done|]. split; [done|].
    intros k row Hk. lia.
  - simpl. destruct (lookup_lt_is_Some_2 waveform start) as [row0 Hrow0]; [lia|].
    rewrite Hrow0.
    destruct (IH (S start) (write_at_start (savetxt_text row0) dump)
                (sent ++ [write_at_start (savetxt_text row0) dump]))
      as (payloads & last & E & L & Hp); [lia|].
    exists (write_at_start (savetxt_text row0) dump :: payloads), last.
    rewrite E, <- app_assoc. split; [done|]. split; [by simpl; rewrite L|].
    intros k row Hk Hrow. destruct k as [|k].
    + rewrite Nat.add_0_r in Hrow. rewrite Hrow0 in Hrow. by injection Hrow as <-.
    + simpl. replace (start + S k) with (S start + k) in Hrow by lia.
      rewrite (Hp k row) by (done || lia). destruct k as [|k']; reflexivity.
Qed.


(** X17. [upload] of a waveform with fewer rows than channels sends the
    rows there are and then raises the index error of the first missing
    row. *)
Theorem upload_short_waveform waveform :
  length waveform < nchannels ->
  exists payloads,
    upload waveform = (payloads, Raise (ListIndexError (length waveform)))
    /\ length payloads = length waveform.
Proof.
  intros Hshort. unfold upload.
  replace nchannels with (length waveform + (nchannels - length waveform)) by lia.
  rewrite seq_app. simpl.
  destruct (upload_loop_rows waveform (length waveform) 0 [] [])
    as (payloads & last & E & L & _); [done|].
  assert (Hsplit : forall l1 l2 dump sent sent' last',
            upload_loop l1 waveform dump sent = (sent', Ok last') ->
            upload_loop (l1 ++ l2) waveform dump sent
            = upload_loop l2 waveform last' sent').
  { induction l1 as [|i l1 IH]; intros l2 dump sent sent' last'; simpl.
    - by intros [= <- <-].
    - destruct (waveform !! i); [apply IH|done]. }
  rewrite (Hsplit _ _ _ _ _ _ E).
  destruct (nchannels - length waveform) as [|m] eqn:Em; [lia|]. simpl.
  rewrite (lookup_ge_None_2 waveform (length waveform)) by lia. simpl.
  by exists payloads.
Qed.

End UploadProperties.

(** ** Labels and random draws across the epochs *)

Section TraceProperties.
Context {F : Type} `{Float F} `{Framework F}.
Implicit Types (w : @world F _) (hams : list observable).
Variable self : @qGAN F.

Lemma replicate_snoc {B} (x : B) k : replicate (S k) x = replicate k x ++ [x].
Proof. induction k as [|k IH]; [done|]. simpl. by rewrite <- IH. Qed.

(** X18. Across the epochs of [train] the discriminator is trained on
    labels one, zero, one, zero, ..., twice per epoch, and the loss function
    of the generator is only ever given labels one, once per epoch. *)
Theorem train_label_sequence k hams w (t : train_locals) w1 :
  train_upto self k hams w = Ok (t, w1) ->
  trained_labels (w_calls w1)
  = trained_labels (w_calls w)
    ++ mjoin (replicate k [ones (half_samples self); zeros (half_samples self)])
  /\ loss_labels (w_calls w1)
     = loss_labels (w_calls w) ++ replicate k (ones (batch_samples self)).
Proof.
  revert t w1. induction k as [|k IH]; intros t w1 E.
  - unfold train_upto, io_bind in E. rewrite train_setup_ok in E. simpl in E.
    injection E as <- <-. simpl. by rewrite !app_nil_r.
  - apply train_upto_S_inv in E as (t0 & w0 & E0 & E).
    destruct (IH _ _ E0) as [Ht Hl].
    apply epoch_inv in E as (x_real & x_fake & x_gen & g & c & E & _).
    unfold epoch_effect in E. injection E as -> ->. simpl.
    unfold trained_labels, loss_labels in *. rewrite !omap_app, Ht, Hl. simpl.
    rewrite <- !app_assoc. split; f_equal.
    + clear. induction k as [|k IH]; simpl; [done|]. by rewrite <- IH.
    + symmetry. apply (replicate_snoc _ k).
Qed.

(** X19. The random numbers of an epoch are drawn in a fixed order:
    [half_samples] indices of the real batch, then the latent points of the
    discriminator's fake batch, then the latent points of the generator's
    batch; nothing else advances the generator state. *)
Theorem epoch_random_draws hams (t t' : train_locals) w w' :
  epoch self hams t w = Ok (t', w') ->
  let g1 := snd (draws (randint1 (training_samples self)) (half_samples self)
                   (w_rng w)) in
  let g2 := snd (draws randn1 (latent_dim self * half_samples self) g1) in
  w_rng w' = snd (draws randn1 (latent_dim self * batch_samples self) g2).
Proof.
  unfold epoch. intros E.
  apply io_bind_inv in E as (r1 & w1 & E1 & E).
  apply generate_real_samples_inv in E1 as (x_real & -> & -> & _).
  apply io_bind_inv in E as (r2 & w2 & E2 & E).
  apply generate_fake_samples_inv in E2 as (x_fake & c2 & -> & -> & _).
  apply io_bind_inv in E as (r_real & w3 & E3 & E).
  unfold do_train_on_batch, io_bind, call in E3. simpl in E3. injection E3 as <- <-.
  apply io_bind_inv in E as (r_fake & w4 & E4 & E).
  unfold do_train_on_batch, io_bind, call in E4. simpl in E4. injection E4 as <- <-.
  apply io_bind_inv in E as (loss & w5 & E5 & E).
  apply define_cost_gan_inv in E5 as (x_gen & g & c & E5 & _ & -> & ->).
  apply generate_fake_samples_inv in E5 as (x_gen' & c' & _ & Hw & _).
  injection Hw as -> _.
  unfold savetxt, save_weights, io_bind, call, io_ret in E. simpl in E.
  injection E as _ <-. reflexivity.
Qed.
End TraceProperties.

(** ** Upload of rows of equal width *)

Section UploadEven.
Import IcarusQ.

(** X20. When the texts of the rows all have the same length, every payload
    of [upload] is the text of its row and nothing else. *)
Theorem upload_even_waveform (waveform : list (list Z)) (n : nat) :
  nchannels <= length waveform ->
  Forall (fun row => length (savetxt_text row) = n) waveform ->
  upload waveform = (map savetxt_text (take nchannels waveform), Ok tt).
Proof.
  intros Hlen Heven. rewrite Forall_lookup in Heven.
  destruct (upload_loop_rows waveform nchannels 0 [] []) as (payloads & last & E & L & Hp);
    [done|].
  unfold upload. rewrite E. simpl. f_equal.
  assert (Hall : forall k, k < nchannels ->
            exists row, waveform !! k = Some row
                        /\ payloads !! k = Some (savetxt_text row)).
  { intros k. induction k as [|k IH]; intros Hk.
    - destruct (lookup_lt_is_Some_2 waveform 0) as [row Hrow]; [lia|].
      exists row. split; [done|]. rewrite (Hp 0 row) by done.
      rewrite write_at_start_same_length; [done|simpl; lia].
    - destruct IH as (row' & Hrow' & Hpay'); [lia|].
      destruct (lookup_lt_is_Some_2 waveform (S k)) as [row Hrow]; [lia|].
      exists row. split; [done|]. rewrite (Hp (S k) row) by done.
      rewrite Hpay'. simpl.
      rewrite write_at_start_same_length; [done|].
      by rewrite (Heven _ _ Hrow), (Heven _ _ Hrow'). }
  apply list_eq. intros k. rewrite list_lookup_fmap.
  destruct (decide (k < nchannels)) as [Hk|Hk].
  - destruct (Hall k Hk) as (row & Hrow & ->).
    by rewrite lookup_take_lt, Hrow by done.
  - rewrite (lookup_ge_None_2 payloads) by lia.
    by rewrite lookup_take_ge by lia.
Qed.
End UploadEven.

(** ** Concrete runs of the mapper *)

Lemma set_params_consumes_parameter_vector_witness :
  1 <= 1 /\ 1 <= 2 /\ length (identity_params 6) = params_length 1 1
  /\ 2 <= length [[3%Q]; [4%Q]]
  /\ Forall (fun row : list Q => 0 < length row /\ 1 <= length row + 1)
            [[3%Q]; [4%Q]]
  /\ exists s,
      set_params_reads_locals 1 1 2 0 = Ok s
      /\ length (m_p s) = 5 * 1 * 1 + 1
      /\ (forall k r, m_p s !! k = Some r ->
            r_index r = 2 * k /\ r_index r + 1 < length (identity_params 6)
            /\ r_noise r < 2)
      /\ m_index s = length (identity_params 6)
      /\ m_noise s < 2
      /\ set_params 1 1 2 (identity_params 6) [[3%Q]; [4%Q]] 0
         = traverse (angle_of_read (identity_params 6) [[3%Q]; [4%Q]]) (m_p s)
      /\ (forall e, set_params 1 1 2 (identity_params 6) [[3%Q]; [4%Q]] 0 = Raise e ->
            forall k, e <> ParamsIndexError k)
      /\ (forall j, j < length (identity_params 6) ->
            exists k r,
              m_p s !! k = Some r
              /\ (j = r_index r \/ j = r_index r + 1)
              /\ forall k' r', m_p s !! k' = Some r' ->
                   j = r_index r' \/ j = r_index r' + 1 -> k' = k)
      /\ exists p,
           set_params 1 1 2 (identity_params 6) [[3%Q]; [4%Q]] 0 = Ok p
           /\ length p = 5 * 1 * 1 + 1
           /\ set_params_final_index 1 1 2 (identity_params 6) [[3%Q]; [4%Q]] 0
              = Ok (length (identity_params 6))
           /\ forall k, k < 5 * 1 * 1 + 1 ->
                exists r scale bias row x,
                  m_p s !! k = Some r
                  /\ identity_params 6 !! (2 * k) = Some scale
                  /\ identity_params 6 !! (2 * k + 1) = Some bias
                  /\ [[3%Q]; [4%Q]] !! r_noise r = Some row
                  /\ row !! r_sample r = Some x
                  /\ p !! k = Some (fadd (fmul scale x) bias).
Proof.
  assert (Hrows : 2 <= length [[3%Q]; [4%Q]]) by (simpl; lia).
  assert (Hcols : Forall (fun row : list Q => 0 < length row /\ 1 <= length row + 1)
                         [[3%Q]; [4%Q]]).
  { repeat constructor; simpl; lia. }
  split; [lia|]. split; [lia|]. split; [reflexivity|].
  split; [exact Hrows|]. split; [exact Hcols|].
  destruct (set_params_consumes_parameter_vector 1 1 2 (identity_params 6)
              [[3%Q]; [4%Q]] 0)
    as (s & H1 & H2 & H3 & H4 & H5 & H6 & H7 & H8 & H9 & H10 & H11);
    [lia | lia | reflexivity |].
  exists s. split; [exact H1|]. split; [exact H2|]. split; [exact H3|].
  split; [exact H4|]. split; [exact H5|]. split; [exact H6|]. split; [exact H7|].
  split; [exact H10|].
  destruct (H11 Hrows Hcols) as (p & Hp & Hfinal).
  exists p. split; [exact Hp|]. split; [exact (proj1 (H8 p Hp))|].
  split; [exact Hfinal|]. exact (H9 p Hp).
Defined.

Lemma set_params_angle_count_matches_circuit_witness :
  1 <= 3 /\ 1 <= 2
  /\ angle_slots (generator_circuit 2 3) = 5 * 2 * 3 + 3
  /\ (exists reads, set_params_reads 2 3 2 0 = Ok reads
        /\ length reads = angle_slots (generator_circuit 2 3))
  /\ (forall p, set_params 2 3 2 (identity_params 33) [[3%Q; 5%Q]; [4%Q; 6%Q]] 0 = Ok p ->
        length p = angle_slots (generator_circuit 2 3)).
Proof.
  split; [lia|]. split; [lia|].
  apply (set_params_angle_count_matches_circuit 2 3 2 (identity_params 33)
           [[3%Q; 5%Q]; [4%Q; 6%Q]] 0); lia.
Defined.

(** C3, counterexample: with one layer, one qubit and five noise rows the
    third angle reads noise row 1 and the fourth row 2, where the schedule
    of the specification has rows 2 and 3. *)
Lemma spec_noise_schedule_refuted :
  exists reads, set_params_reads 1 1 5 0 = Ok reads
    /\ map r_noise reads = [0; 1; 1; 2; 3; 4]
    /\ spec_noise_schedule 1 1 5 = [0; 1; 2; 3; 3; 4]
    /\ map r_noise reads <> spec_noise_schedule 1 1 5.
Proof.
  eexists. split; [vm_compute; reflexivity|].
  split; [reflexivity|]. split; [vm_compute; reflexivity|].
  intros Heq. vm_compute in Heq. discriminate.
Qed.

Lemma set_params_noise_schedule_witness :
  1 <= 1 /\ 1 <= 5
  /\ exists reads, set_params_reads 1 1 5 0 = Ok reads
       /\ map r_noise reads = code_noise_schedule 1 1 5.
Proof.
  split; [lia|]. split; [lia|].
  apply (set_params_noise_schedule 1 1 5 0); lia.
Defined.

(** C4, at the failing input: one layer, two qubits, one noise row, two
    samples.  The two latent matrices have the same latent vector for
    sample 1, yet the angle arrays for sample 1 differ: the ring loop has
    rebound [i], and the last four angles read sample 0. *)
Theorem set_params_reads_another_sample :
  column latent_a 1 = column latent_b 1
  /\ set_params 1 2 1 (identity_params 12) latent_a 1
     = Ok [1; 1; 1; 1; 1; 1; 1; 1; 10; 10; 10; 10]%Q
  /\ set_params 1 2 1 (identity_params 12) latent_b 1
     = Ok [1; 1; 1; 1; 1; 1; 1; 1; 20; 20; 20; 20]%Q
  /\ set_params 1 2 1 (identity_params 12) latent_a 1
     <> set_params 1 2 1 (identity_params 12) latent_b 1.
Proof.
  split; [reflexivity|].
  split; [vm_compute; reflexivity|]. split; [vm_compute; reflexivity|].
  intros Heq. vm_compute in Heq. discriminate.
Qed.

(** ** Concrete runs of the training loop and of the download *)

Global Instance counting_laws : FrameworkLaws Q.
Proof.
  split.
  - intros high g Hhigh. simpl. apply Nat.mod_upper_bound. lia.
  - intros o grads params. reflexivity.
Qed.

Lemma define_cost_gan_inverts_labels_witness :
  well_configured small_qgan small_hams
  /\ nqubits small_qgan <= 4 + 1
  /\ params_length (layers small_qgan) (nqubits small_qgan)
     <= length (identity_params 12)
  /\ exists loss w',
       define_cost_gan small_qgan (identity_params 12) 4 small_hams small_world
       = Ok (loss, w').
Proof.
  assert (Hwc : well_configured small_qgan small_hams)
    by (vm_compute; repeat split; lia).
  assert (Hs : nqubits small_qgan <= 4 + 1) by (vm_compute; lia).
  assert (Hp : params_length (layers small_qgan) (nqubits small_qgan)
               <= length (identity_params 12)) by (vm_compute; lia).
  split; [exact Hwc|]. split; [exact Hs|]. split; [exact Hp|].
  exact (proj2 (proj2 (proj2
           (define_cost_gan_inverts_labels small_qgan small_hams
              (identity_params 12) 4 small_world))) Hwc Hs Hp).
Defined.


Lemma train_checkpoints_every_epoch_witness :
  well_configured small_qgan small_hams
  /\ exists (t2 : train_locals) w2,
       train_upto small_qgan 2 small_hams small_world = Ok (t2, w2).
Proof.
  assert (Hwc : well_configured small_qgan small_hams)
    by (vm_compute; repeat split; lia).
  split; [exact Hwc|].
  exact (proj1 (proj2 (train_checkpoints_every_epoch small_qgan small_hams
                         small_world 1)) Hwc).
Defined.

Lemma train_creates_parameter_vector_witness :
  well_configured small_qgan small_hams
  /\ exists (t : train_locals) w1,
       train_upto small_qgan 1 small_hams small_world = Ok (t, w1).
Proof.
  assert (Hwc : well_configured small_qgan small_hams)
    by (vm_compute; repeat split; lia).
  split; [exact Hwc|].
  exact (proj1 (proj2 (proj2 (train_creates_parameter_vector small_qgan small_hams
                                small_world 1 small_process))) Hwc).
Defined.

Lemma download_shape_witness :
  (forall i, i < IcarusQ.nchannels ->
     length (IcarusQ.channel_text i 0) = IcarusQ.sample_size + 1)
  /\ exists waveform,
       IcarusQ.download 0 = Ok waveform
       /\ IcarusQ.has_shape IcarusQ.nchannels IcarusQ.sample_size waveform
       /\ forall i, i < IcarusQ.nchannels ->
            exists row x, waveform !! i = Some row
              /\ IcarusQ.channel_text i 0 = row ++ [x].
Proof.
  assert (Hlen : forall i, i < IcarusQ.nchannels ->
            length (IcarusQ.channel_text i 0) = IcarusQ.sample_size + 1)
    by (intros i _; apply repeat_length).
  split; [exact Hlen|].
  exact (proj1 (proj2 (download_shape 0)) Hlen).
Defined.

(** ** Concrete runs for the further properties *)

Lemma set_params_reads_columns_witness :
  1 <= 2 /\ 1 <= 1
  /\ (forall c, c = 1 \/ c + 2 <= 2 -> column latent_a c = column latent_c c)
  /\ set_params 1 2 1 (identity_params 12) latent_a 1
     = set_params 1 2 1 (identity_params 12) latent_c 1.
Proof.
  assert (Hc : forall c, c = 1 \/ c + 2 <= 2 -> column latent_a c = column latent_c c).
  { intros c [->|Hc]; [reflexivity|]. replace c with 0 by lia. reflexivity. }
  split; [lia|]. split; [lia|]. split; [exact Hc|].
  apply (set_params_reads_columns 1 2 1 (identity_params 12) latent_a latent_c 1);
    [lia|lia|exact Hc].
Defined.

Lemma set_params_single_qubit_column_witness :
  1 <= 1 /\ column latent_a 1 = column latent_b 1
  /\ set_params 1 1 1 (identity_params 6) latent_a 1
     = set_params 1 1 1 (identity_params 6) latent_b 1.
Proof.
  split; [lia|]. split; [reflexivity|].
  apply (set_params_single_qubit_column 1 1 (identity_params 6) latent_a latent_b 1);
    [lia|reflexivity].
Defined.

Lemma set_params_ring_ignores_sample_witness :
  2 <= 2 /\ 1 <= 1 /\ 1 <= 1
  /\ set_params 1 2 1 (identity_params 12) latent_a 0
     = Ok [10; 10; 10; 10; 10; 10; 10; 10; 10; 10; 10; 10]%Q
  /\ set_params 1 2 1 (identity_params 12) latent_a 1
     = Ok [1; 1; 1; 1; 1; 1; 1; 1; 10; 10; 10; 10]%Q
  /\ drop (4 * 2) [10; 10; 10; 10; 10; 10; 10; 10; 10; 10; 10; 10]%Q
     = drop (4 * 2) [1; 1; 1; 1; 1; 1; 1; 1; 10; 10; 10; 10]%Q.
Proof.
  assert (E0 : set_params 1 2 1 (identity_params 12) latent_a 0
               = Ok [10; 10; 10; 10; 10; 10; 10; 10; 10; 10; 10; 10]%Q)
    by (vm_compute; reflexivity).
  assert (E1 : set_params 1 2 1 (identity_params 12) latent_a 1
               = Ok [1; 1; 1; 1; 1; 1; 1; 1; 10; 10; 10; 10]%Q)
    by (vm_compute; reflexivity).
  split; [lia|]. split; [lia|]. split; [lia|]. split; [exact E0|]. split; [exact E1|].
  apply (set_params_ring_ignores_sample 1 2 1 (identity_params 12) latent_a 0 1);
    [lia|lia|lia|exact E0|exact E1].
Defined.

Lemma set_params_zero_latent_dim_witness :
  (1 <= 1 \/ 1 <= 1)
  /\ set_params 1 1 0 (identity_params 6) latent_a 0
     = (let* _ := angle_of (identity_params 6) latent_a 0 0 0 in
        Raise ZeroDivisionError)
  /\ forall p, set_params 1 1 0 (identity_params 6) latent_a 0 <> Ok p.
Proof.
  split; [left; lia|].
  apply (set_params_zero_latent_dim 1 1 (identity_params 6) latent_a 0). left. lia.
Defined.

Lemma set_params_short_vector_witness :
  1 <= 1 /\ 1 <= 1
  /\ length (identity_params 5) < params_length 1 1
  /\ 1 <= length latent_a
  /\ Forall (fun row : list Q => 0 < length row /\ 1 <= length row + 1) latent_a
  /\ set_params 1 1 1 (identity_params 5) latent_a 0
     = Raise (ParamsIndexError (length (identity_params 5))).
Proof.
  assert (Hs : length (identity_params 5) < params_length 1 1) by (vm_compute; lia).
  assert (Hr : 1 <= length latent_a) by (simpl; lia).
  assert (Hc : Forall (fun row : list Q => 0 < length row /\ 1 <= length row + 1)
                 latent_a) by (repeat constructor; simpl; lia).
  split; [lia|]. split; [lia|]. split; [exact Hs|]. split; [exact Hr|].
  split; [exact Hc|].
  apply (set_params_short_vector 1 1 1 (identity_params 5) latent_a 0);
    [lia|lia|exact Hs|exact Hr|exact Hc].
Defined.

Lemma generate_fake_samples_shape_witness :
  exists X y w',
    generate_fake_samples small_qgan (identity_params 12) 2 small_hams small_world
    = Ok ((X, y), w')
    /\ y = zeros 2
    /\ length X = 2
    /\ Forall (fun row => length row = nqubits small_qgan
                          /\ exists st : qstate,
                               row = map (fun h => expectation h st)
                                         (take (nqubits small_qgan) small_hams)) X
    /\ w_rng w' = snd (draws randn1 (latent_dim small_qgan * 2) (w_rng small_world))
    /\ w_model w' = w_model small_world /\ w_files w' = w_files small_world
    /\ w_calls w' = w_calls small_world.
Proof.
  destruct (generate_fake_samples small_qgan (identity_params 12) 2 small_hams
              small_world) as [[[X y] w']|e] eqn:E; [|vm_compute in E; discriminate].
  exists X, y, w'. split; [reflexivity|].
  exact (generate_fake_samples_shape small_qgan (identity_params 12) 2 small_hams
           small_world X y w' E).
Defined.

Lemma generate_fake_samples_zero_latent_dim_witness :
  latent_dim flat_qgan = 0 /\ 1 <= nqubits flat_qgan /\ 1 <= 2
  /\ 2 <= length (identity_params 12)
  /\ generate_fake_samples flat_qgan (identity_params 12) 2 small_hams small_world
     = Raise (LatentIndexError 0).
Proof.
  assert (Hp : 2 <= length (identity_params 12)) by (vm_compute; lia).
  split; [reflexivity|]. split; [simpl; lia|]. split; [lia|]. split; [exact Hp|].
  apply (generate_fake_samples_zero_latent_dim flat_qgan (identity_params 12) 2
           small_hams small_world); [reflexivity|simpl; lia|lia|exact Hp].
Defined.

Lemma train_keeps_last_checkpoint_witness :
  exists (t : train_locals) w1,
    train_upto small_qgan 1 small_hams small_world = Ok (t, w1)
    /\ w_files w1 = checkpoint small_qgan t (w_model w1) (w_files small_world)
    /\ (forall f, f ∉ checkpoint_files small_qgan ->
          w_files w1 !! f = w_files small_world !! f)
    /\ dom (w_files w1)
       = dom (w_files small_world) ∪ list_to_set (checkpoint_files small_qgan)
    /\ written (w_calls w1)
       = written (w_calls small_world)
         ++ mjoin (replicate 1 (checkpoint_files small_qgan)).
Proof.
  destruct (train_upto small_qgan 1 small_hams small_world) as [[t w1]|e] eqn:E;
    [|vm_compute in E; discriminate].
  exists t, w1. split; [reflexivity|].
  exact (train_keeps_last_checkpoint small_qgan 0 small_hams small_world t w1 E).
Defined.

Lemma hamiltonian_kron_chain_witness :
  2 <= 3
  /\ hamiltonian 3 1
     = Ok (Hamiltonian 3 (kron_chain (kron_factor 1 0)
                            (map (kron_factor 1) (seq 1 (3 - 1))))).
Proof.
  split; [lia|]. apply (hamiltonian_kron_chain (F:=Q) 3 1). lia.
Defined.

Lemma execute_single_qubit_unbound_witness :
  nqubits single_qubit_qgan = 1
  /\ (forall position, hamiltonian (nqubits single_qubit_qgan) position
                       = Raise (UnboundLocalError "ham"))
  /\ execute single_qubit_qgan small_process = Raise (UnboundLocalError "ham").
Proof.
  split; [reflexivity|].
  apply (execute_single_qubit_unbound single_qubit_qgan small_process). reflexivity.
Defined.

Lemma execute_completes_training_witness :
  2 <= nqubits small_qgan /\ 1 <= latent_dim small_qgan
  /\ nqubits small_qgan <= half_samples small_qgan + 1
  /\ 1 <= training_samples small_qgan
  /\ length (rows (reference small_qgan)) = training_samples small_qgan
  /\ exists (t : train_locals) w,
       execute small_qgan small_process = Ok (t, w)
       /\ length (d_loss t) = n_epochs small_qgan
       /\ length (g_loss t) = n_epochs small_qgan
       /\ length (initial_params t)
          = params_length (layers small_qgan) (nqubits small_qgan)
       /\ written (w_calls w)
          = mjoin (replicate (n_epochs small_qgan) (checkpoint_files small_qgan))
       /\ w_files w = match n_epochs small_qgan with
                      | 0 => ps_files small_process
                      | S _ => checkpoint small_qgan t (w_model w)
                                 (ps_files small_process)
                      end.
Proof.
  assert (H1 : 2 <= nqubits small_qgan) by (vm_compute; lia).
  assert (H2 : 1 <= latent_dim small_qgan) by (vm_compute; lia).
  assert (H3 : nqubits small_qgan <= half_samples small_qgan + 1) by (vm_compute; lia).
  assert (H4 : 1 <= training_samples small_qgan) by (vm_compute; lia).
  assert (H5 : length (rows (reference small_qgan)) = training_samples small_qgan)
    by reflexivity.
  split; [exact H1|]. split; [exact H2|]. split; [exact H3|]. split; [exact H4|].
  split; [exact H5|].
  exact (execute_completes_training small_qgan small_process H1 H2 H3 H4 H5).
Defined.



Lemma layer_gates_ring_witness :
  1 <= 3
  /\ layer_gates 3
     = flat_map rotation_gates (seq 0 3)
       ++ map (fun i => CRY (Z.of_nat i) (Z.of_nat ((i + 1) mod 3)) 0) (seq 0 3).
Proof. split; [lia|]. apply (layer_gates_ring 3). lia. Defined.

Lemma generator_circuit_fits_witness :
  2 <= 2
  /\ c_nqubits (generator_circuit 1 2) = 2
  /\ forallb (gate_fits 2) (c_queue (generator_circuit 1 2)) = true.
Proof. split; [lia|]. apply (generator_circuit_fits 1 2). lia. Defined.

Lemma download_refuses_other_lengths_witness :
  1 < IcarusQ.nchannels
  /\ (forall i, i < 1 ->
        length (IcarusQ.channel_text (H0:=patchy_instrument) i 0)
        = IcarusQ.sample_size + 1)
  /\ (forall i, i < 1 ->
        length (IcarusQ.channel_text (H0:=scalar_instrument) i 0)
        = IcarusQ.sample_size + 1)
  /\ length (IcarusQ.channel_text (H0:=scalar_instrument) 1 0) = 1
  /\ IcarusQ.download (H0:=scalar_instrument) 0 = Raise ZeroDimIndexError
  /\ length (IcarusQ.channel_text (H0:=patchy_instrument) 1 0) <> 1
  /\ length (IcarusQ.drop_last (IcarusQ.channel_text (H0:=patchy_instrument) 1 0))
     <> IcarusQ.sample_size
  /\ length (IcarusQ.drop_last (IcarusQ.channel_text (H0:=patchy_instrument) 1 0))
     <> 1
  /\ IcarusQ.download (H0:=patchy_instrument) 0
     = Raise (BroadcastError
                (length (IcarusQ.drop_last
                           (IcarusQ.channel_text (H0:=patchy_instrument) 1 0)))
                IcarusQ.sample_size).
Proof.
  assert (Hk : 1 < IcarusQ.nchannels) by (unfold IcarusQ.nchannels; lia).
  assert (Hp : forall i, i < 1 ->
            length (IcarusQ.channel_text (H0:=patchy_instrument) i 0)
            = IcarusQ.sample_size + 1).
  { intros i Hi. replace i with 0 by lia. apply repeat_length. }
  assert (Hq : forall i, i < 1 ->
            length (IcarusQ.channel_text (H0:=scalar_instrument) i 0)
            = IcarusQ.sample_size + 1).
  { intros i Hi. replace i with 0 by lia. apply repeat_length. }
  assert (H1 : length (IcarusQ.channel_text (H0:=scalar_instrument) 1 0) = 1)
    by reflexivity.
  assert (H3 : length (IcarusQ.channel_text (H0:=patchy_instrument) 1 0) <> 1).
  { change (3 <> 1). lia. }
  assert (Hs : length (IcarusQ.drop_last
                         (IcarusQ.channel_text (H0:=patchy_instrument) 1 0))
               <> IcarusQ.sample_size).
  { change (2 <> IcarusQ.sample_size). unfold IcarusQ.sample_size. lia. }
  assert (H2 : length (IcarusQ.drop_last
                         (IcarusQ.channel_text (H0:=patchy_instrument) 1 0)) <> 1).
  { change (2 <> 1). lia. }
  split; [exact Hk|]. split; [exact Hp|]. split; [exact Hq|]. split; [exact H1|].
  split.
  { exact (proj1 (download_refuses_other_lengths (H0:=scalar_instrument) 0 1 Hk Hq)
             H1). }
  split; [exact H3|]. split; [exact Hs|]. split; [exact H2|].
  exact (proj2 (download_refuses_other_lengths (H0:=patchy_instrument) 0 1 Hk Hp)
           H3 Hs H2).
Defined.


(** the payloads of this run: the second channel's text [1,2,] is followed
    by what the first channel left in the buffer *)
Lemma upload_uneven_waveform_payloads :
  map String.string_of_list_ascii (fst (IcarusQ.upload uneven_waveform))
  = ["1000,2000,"; "1,2,,2000,"; "1,2,,2000,"; "-5,,,2000,"]%string.
Proof. vm_compute. reflexivity. Qed.

Lemma upload_short_waveform_witness :
  length one_row_waveform < IcarusQ.nchannels
  /\ exists payloads,
       IcarusQ.upload one_row_waveform
       = (payloads, Raise (ListIndexError (length one_row_waveform)))
       /\ length payloads = length one_row_waveform.
Proof.
  assert (Hl : length one_row_waveform < IcarusQ.nchannels) by (vm_compute; lia).
  split; [exact Hl|]. exact (upload_short_waveform one_row_waveform Hl).
Defined.

Lemma train_label_sequence_witness :
  exists (t : train_locals) w1,
    train_upto small_qgan 2 small_hams small_world = Ok (t, w1)
    /\ trained_labels (w_calls w1)
       = trained_labels (w_calls small_world)
         ++ mjoin (replicate 2 [ones (half_samples small_qgan);
                                zeros (half_samples small_qgan)])
    /\ loss_labels (w_calls w1)
       = loss_labels (w_calls small_world)
         ++ replicate 2 (ones (batch_samples small_qgan)).
Proof.
  destruct (train_upto small_qgan 2 small_hams small_world) as [[t w1]|e] eqn:E;
    [|vm_compute in E; discriminate].
  exists t, w1. split; [reflexivity|].
  exact (train_label_sequence small_qgan 2 small_hams small_world t w1 E).
Defined.

Lemma epoch_random_draws_witness :
  exists (t' : train_locals) w',
    epoch small_qgan small_hams small_locals small_world = Ok (t', w')
    /\ w_rng w'
       = snd (draws randn1 (latent_dim small_qgan * batch_samples small_qgan)
                (snd (draws randn1 (latent_dim small_qgan * half_samples small_qgan)
                        (snd (draws (randint1 (training_samples small_qgan))
                                (half_samples small_qgan) (w_rng small_world)))))).
Proof.
  destruct (epoch small_qgan small_hams small_locals small_world) as [[t' w']|e] eqn:E;
    [|vm_compute in E; discriminate].
  exists t', w'. split; [reflexivity|].
  exact (epoch_random_draws small_qgan small_hams small_locals t' small_world w' E).
Defined.

Lemma upload_even_waveform_witness :
  IcarusQ.nchannels <= length even_waveform
  /\ Forall (fun row => length (IcarusQ.savetxt_text row) = 4) even_waveform
  /\ IcarusQ.upload even_waveform
     = (map IcarusQ.savetxt_text (take IcarusQ.nchannels even_waveform), Ok tt).
Proof.
  assert (Hl : IcarusQ.nchannels <= length even_waveform) by (vm_compute; lia).
  assert (He : Forall (fun row => length (IcarusQ.savetxt_text row) = 4) even_waveform)
    by (repeat constructor).
  split; [exact Hl|]. split; [exact He|].
  exact (upload_even_waveform even_waveform 4 Hl He).
Defined.
